(** * The topology webview controller of vscode-containerlab

    A shallow embedding of [TopologyWebviewController]
    (topologyWebviewController.ts): the element store it drives through the
    rendering library, the endpoint allocator [getNextEndpoint], the
    edge-draw predicate [canConnect], the [updateTopology] patch handler,
    the deployment lock, the debounced autosave and the edit-mode click
    router, with the properties the specification states about them.

    Beside them: the click on an edge and the link commands of the menus,
    the overview drawer of the page, and the session maps that
    extension.ts rebuilds ([refreshSshxSessions], [refreshGottySessions]),
    with properties read off the code. *)

From Stdlib Require Import NArith Lia Ascii.
From stdpp Require Import base option list strings gmap pretty.

Set Default Proof Using "Type".
#[local] Set Warnings "-clear-no-such-hyp".

#[local] Arguments String.append !_ _ / : simpl nomatch.

(** ** JavaScript strings

    Strings are sequences of characters; the operations below are the ones
    the controller calls on them. *)

Module JsString.

(** [s.startsWith(p)] *)
Fixpoint starts_with (p s : string) : bool :=
  match p, s with
  | EmptyString, _ => true
  | String a p', String b s' => bool_decide (a = b) && starts_with p' s'
  | String _ _, EmptyString => false
  end.

(** [s.slice(n)] *)
Fixpoint slice (n : nat) (s : string) : string :=
  match n, s with
  | O, _ => s
  | S n', String _ s' => slice n' s'
  | S _, EmptyString => EmptyString
  end.

(** [s.replace(needle, repl)] with a string [needle]: the first occurrence
    only.  The replacement strings the controller passes (a placeholder,
    a capture group, a decimal number) hold no [$], so no replacement
    pattern of JavaScript is involved. *)
Fixpoint replace (needle repl s : string) : string :=
  if starts_with needle s then repl +:+ slice (String.length needle) s
  else match s with
       | EmptyString => EmptyString
       | String c s' => String c (replace needle repl s')
       end.

Definition is_digit (c : ascii) : bool :=
  match Ascii.is_nat c with Some _ => true | None => false end.

Definition digit_value (c : ascii) : N :=
  match Ascii.is_nat c with Some d => N.of_nat d | None => 0%N end.

Fixpoint all_digits (s : string) : bool :=
  match s with
  | EmptyString => true
  | String c s' => is_digit c && all_digits s'
  end.

(** The text before and after the first occurrence of [needle]. *)
Fixpoint split_first (needle s : string) : option (string * string) :=
  if starts_with needle s then Some (EmptyString, slice (String.length needle) s)
  else match s with
       | EmptyString => None
       | String c s' =>
           match split_first needle s' with
           | Some (a, b) => Some (String c a, b)
           | None => None
           end
       end.

(** A JavaScript number as the allocator meets it: [NaN] or a
    non-negative integer.  Integers are exact here; a double is exact up
    to 2^53, far above the number of edges a graph can hold. *)
Inductive jsnum := NaN | Num (n : N).

#[global] Instance jsnum_eq_dec : EqDecision jsnum.
Proof. solve_decision. Defined.

Fixpoint digits_value (acc : N) (s : string) : N :=
  match s with
  | String c s' =>
      if is_digit c then digits_value (10 * acc + digit_value c)%N s' else acc
  | EmptyString => acc
  end.

(** [parseInt(x, 10)] where [x] is a string of the shape the allocator
    passes (no sign, no leading blank) or [undefined] ([None]): the value
    of the leading digits, [NaN] when there is none. *)
Definition parseInt (x : option string) : jsnum :=
  match x with
  | Some (String c s') =>
      if is_digit c then Num (digits_value 0 (String c s')) else NaN
  | _ => NaN
  end.

(** [n.toString()] of a non-negative integer. *)
Definition toString (n : N) : string := pretty n.

End JsString.

(** ** The regular expressions [getNextEndpoint] builds

    [new RegExp(src)] is modelled on the fragment the allocator produces:
    [^], then literal characters (a metacharacter only behind a backslash)
    and capture groups [(\d+)], then [$].  A source outside that fragment
    gives [None]. *)

Module Regex.
Import JsString.

(** The class [[.*+?^${}()|[\]\\]] of the escaping [replace]. *)
Definition is_meta (c : ascii) : bool :=
  match c with
  | "." | "*" | "+" | "?" | "^" | "$" | "{" | "}"
  | "(" | ")" | "|" | "[" | "]" | "\" => true
  | _ => false
  end%char.

(** [s.replace(/[.*+?^${}()|[\]\\]/g, '\\$&')]: every metacharacter gets
    a backslash in front. *)
Fixpoint escape (s : string) : string :=
  match s with
  | EmptyString => EmptyString
  | String c s' =>
      if is_meta c then String "\" (String c (escape s'))
      else String c (escape s')
  end.

Inductive item :=
  | Lit (c : ascii)   (* one literal character *)
  | Digits.           (* the group (\d+) *)

Fixpoint parse_items (s : string) : option (list item) :=
  match s with
  | String "$" EmptyString => Some []
  | String "\" (String c s') =>
      if is_meta c then cons (Lit c) <$> parse_items s' else None
  | String "(" (String "\" (String "d" (String "+" (String ")" s')))) =>
      cons Digits <$> parse_items s'
  | String c s' =>
      if is_meta c then None else cons (Lit c) <$> parse_items s'
  | EmptyString => None
  end.

Definition RegExp (src : string) : option (list item) :=
  match src with
  | String "^" body => parse_items body
  | _ => None
  end.

(** [s.match(re)] for a regular expression without the global flag:
    [None] is [null]; [Some caps] is a match, [caps] the captured groups
    in order ([match[1]] is the first).  [\d+] is greedy and gives back
    digits when the rest does not match. *)
Fixpoint exec (re : list item) (s : string) : option (list string) :=
  match re with
  | [] => match s with EmptyString => Some [] | String _ _ => None end
  | Lit c :: re' =>
      match s with
      | String c' s' => if bool_decide (c = c') then exec re' s' else None
      | EmptyString => None
      end
  | Digits :: re' =>
      (fix digits (s : string) : option (list string) :=
         match s with
         | String c s' =>
             if is_digit c then
               match digits s' with
               | Some (d :: caps) => Some (String c d :: caps)
               | _ => cons (String c EmptyString) <$> exec re' s'
               end
             else None
         | EmptyString => None
         end) s
  end.

End Regex.

(** ** The element store

    The rendering library's graph is a black box to the controller; it is
    modelled by what the controller reads and writes through its API: the
    elements in insertion order, each with its group, its data bag, its
    classes and its grabbable flag; the listeners registered with [cy.on];
    the cursor of the container; the live context menus. *)

Inductive Group := Nodes | Edges.

#[global] Instance Group_eq_dec : EqDecision Group.
Proof. solve_decision. Defined.

(** The data of an element, as [NodeData] and [EdgeData] type it: string
    fields ([id], [source], [target], [parent], [topoViewerRole], [editor],
    [sourceEndpoint], [targetEndpoint], ...) and the object [extraData]. *)
Record Data := mkData {
  fields : gmap string string;
  extraData : option (gmap string string);
}.

#[global] Instance Data_eq_dec : EqDecision Data.
Proof. solve_decision. Defined.

Record Ele := mkEle {
  group : Group;
  data : Data;
  classes : list string;
  grabbable : bool;
}.

#[global] Instance Ele_eq_dec : EqDecision Ele.
Proof. solve_decision. Defined.

(** The closures the controller hands to [cy.on], by the place that
    registers them. *)
Inductive Handler :=
  | BlockTap                  (* applyEditingRestrictions *)
  | BlockCxtTapOnElement
  | BlockCxtTapOnCanvas
  | BlockGrab
  | AutoSave                  (* setupAutoSave *)
  | AutoSaveUnlessGrabbed.

#[global] Instance Handler_eq_dec : EqDecision Handler.
Proof. solve_decision. Defined.

Record Listener := mkListener {
  on_events : string;
  on_selector : option string;
  on_handler : Handler;
}.

#[global] Instance Listener_eq_dec : EqDecision Listener.
Proof. solve_decision. Defined.

(** The four menus [initializeContextMenu] makes, by what their selector
    picks: free-text nodes; nodes that are neither group, placeholder nor
    free text; parents, placeholders and groups; edges. *)
Inductive MenuFor := FreeTextMenu | NodeMenu | GroupMenu | EdgeMenu.

#[global] Instance MenuFor_eq_dec : EqDecision MenuFor.
Proof. solve_decision. Defined.

Record CxtMenu := mkCxtMenu {
  menu_for : MenuFor;
  menu_commands : list string;
}.

#[global] Instance CxtMenu_eq_dec : EqDecision CxtMenu.
Proof. solve_decision. Defined.

Record Cy := mkCy {
  elements : list Ele;
  listeners : list Listener;
  (** [cy.container().style.cursor]; [None] when there is no container *)
  cursor : option string;
  (** the menus made by [cy.cxtmenu(...)] and not destroyed *)
  cxtmenus : list CxtMenu;
  (** [cy._private.cxtmenu] *)
  private_cxtmenu : option (list CxtMenu);
}.

(** [ele.data(key)] for a string field, [ele.id()], [ele.isNode()] *)
Definition field (key : string) (e : Ele) : option string := fields (data e) !! key.
Definition id_of (e : Ele) : option string := field "id" e.
Definition isNode (e : Ele) : bool := bool_decide (group e = Nodes).
Definition isEdge (e : Ele) : bool := bool_decide (group e = Edges).

(** A JavaScript string in a condition: [undefined] and [""] are falsy. *)
Definition truthy (x : option string) : bool :=
  match x with
  | Some s => negb (bool_decide (s = ""))
  | None => false
  end.

(** [x || d] on strings *)
Definition or_else (x : option string) (d : string) : string :=
  match x with
  | Some s => if bool_decide (s = "") then d else s
  | None => d
  end.

(** [cy.nodes()], [cy.edges()] *)
Definition nodes (g : Cy) : list Ele := filter (λ e, group e = Nodes) (elements g).
Definition edges (g : Cy) : list Ele := filter (λ e, group e = Edges) (elements g).

(** [cy.getElementById(id)]: the collection of the elements under that id,
    empty or a singleton in a store whose ids are unique. *)
Definition getElementById (g : Cy) (i : string) : list Ele :=
  filter (λ e, id_of e = Some i) (elements g).

(** [cy.edges('[source = "i"], [target = "i"]')]: the selector text is
    built by interpolating [i]; it is read here as the selector it spells
    for an id without quote or backslash. *)
Definition edges_touching (g : Cy) (i : string) : list Ele :=
  filter (λ e, field "source" e = Some i ∨ field "target" e = Some i) (edges g).

(** ** The controller *)

Record EdgeHandles := mkEh {
  eh_enabled : bool;
  (** the node a draw was started from by [eh.start] *)
  eh_source : option string;
}.

Record Window := mkWindow {
  isLabDeployed : option bool;
  ifacePatternMapping : option (gmap string string);
}.

(** The calls into the rendering library and the edge-draw extension that
    switch editing off and on, in the order they were made: a record kept
    beside the state to count them. *)
Inductive Call := Ungrabify | Grabify | EhDisable | EhEnable.

#[global] Instance Call_eq_dec : EqDecision Call.
Proof. solve_decision. Defined.

Record Controller := mkController {
  cy : Cy;
  (** [this.eh]: set by [initializeEdgehandles], in edit mode only *)
  eh : option EdgeHandles;
  isEdgeHandlerActive : bool;
  isViewportDrawerClabEditorChecked : bool;
  isEditingLocked : bool;
  interfaceCounters : gmap string N;
  window : Window;
  (** [viewportPanels.nodeClicked] *)
  nodeClicked : bool;
  (** [floatingActionPanel] is set, and the attribute
      [data-is-lab-deployed] of the element [fab-main], when it exists *)
  floatingActionPanel : bool;
  fabMain : option string;
  calls : list Call;
}.

Definition set_cy (g : Cy) (c : Controller) : Controller :=
  mkController g (eh c) (isEdgeHandlerActive c)
    (isViewportDrawerClabEditorChecked c) (isEditingLocked c)
    (interfaceCounters c) (window c) (nodeClicked c)
    (floatingActionPanel c) (fabMain c) (calls c).

Definition set_eh (x : option EdgeHandles) (c : Controller) : Controller :=
  mkController (cy c) x (isEdgeHandlerActive c)
    (isViewportDrawerClabEditorChecked c) (isEditingLocked c)
    (interfaceCounters c) (window c) (nodeClicked c)
    (floatingActionPanel c) (fabMain c) (calls c).

Definition set_isEdgeHandlerActive (b : bool) (c : Controller) : Controller :=
  mkController (cy c) (eh c) b
    (isViewportDrawerClabEditorChecked c) (isEditingLocked c)
    (interfaceCounters c) (window c) (nodeClicked c)
    (floatingActionPanel c) (fabMain c) (calls c).

Definition set_isEditingLocked (b : bool) (c : Controller) : Controller :=
  mkController (cy c) (eh c) (isEdgeHandlerActive c)
    (isViewportDrawerClabEditorChecked c) b
    (interfaceCounters c) (window c) (nodeClicked c)
    (floatingActionPanel c) (fabMain c) (calls c).

Definition set_interfaceCounters (m : gmap string N) (c : Controller) : Controller :=
  mkController (cy c) (eh c) (isEdgeHandlerActive c)
    (isViewportDrawerClabEditorChecked c) (isEditingLocked c)
    m (window c) (nodeClicked c)
    (floatingActionPanel c) (fabMain c) (calls c).

Definition set_window (w : Window) (c : Controller) : Controller :=
  mkController (cy c) (eh c) (isEdgeHandlerActive c)
    (isViewportDrawerClabEditorChecked c) (isEditingLocked c)
    (interfaceCounters c) w (nodeClicked c)
    (floatingActionPanel c) (fabMain c) (calls c).

Definition set_nodeClicked (b : bool) (c : Controller) : Controller :=
  mkController (cy c) (eh c) (isEdgeHandlerActive c)
    (isViewportDrawerClabEditorChecked c) (isEditingLocked c)
    (interfaceCounters c) (window c) b
    (floatingActionPanel c) (fabMain c) (calls c).

Definition set_fabMain (a : option string) (c : Controller) : Controller :=
  mkController (cy c) (eh c) (isEdgeHandlerActive c)
    (isViewportDrawerClabEditorChecked c) (isEditingLocked c)
    (interfaceCounters c) (window c) (nodeClicked c)
    (floatingActionPanel c) a (calls c).

Definition record_call (x : Call) (c : Controller) : Controller :=
  mkController (cy c) (eh c) (isEdgeHandlerActive c)
    (isViewportDrawerClabEditorChecked c) (isEditingLocked c)
    (interfaceCounters c) (window c) (nodeClicked c)
    (floatingActionPanel c) (fabMain c) (calls c ++ [x]).

Definition set_elements (l : list Ele) (g : Cy) : Cy :=
  mkCy l (listeners g) (cursor g) (cxtmenus g) (private_cxtmenu g).

Definition set_listeners (l : list Listener) (g : Cy) : Cy :=
  mkCy (elements g) l (cursor g) (cxtmenus g) (private_cxtmenu g).

Definition set_cursor (x : option string) (g : Cy) : Cy :=
  mkCy (elements g) (listeners g) x (cxtmenus g) (private_cxtmenu g).

Definition set_cxtmenus (l : list CxtMenu) (g : Cy) : Cy :=
  mkCy (elements g) (listeners g) (cursor g) l (private_cxtmenu g).

Definition set_private_cxtmenu (x : option (list CxtMenu)) (g : Cy) : Cy :=
  mkCy (elements g) (listeners g) (cursor g) (cxtmenus g) x.

(** *** Operations of the store *)

Definition set_data (d : Data) (e : Ele) : Ele :=
  mkEle (group e) d (classes e) (grabbable e).
Definition set_classes (l : list string) (e : Ele) : Ele :=
  mkEle (group e) (data e) l (grabbable e).
Definition set_grabbable (b : bool) (e : Ele) : Ele :=
  mkEle (group e) (data e) (classes e) b.

(** The keys [ele.data(obj)] leaves alone. *)
Definition immutable (key : string) : Prop := key ∈ ["id"; "source"; "target"; "parent"].

#[global] Instance immutable_dec key : Decision (immutable key).
Proof. unfold immutable. apply _. Defined.

(** [ele.data(obj)]: every key of [obj] is written over the element's
    value, the immutable ones apart. *)
Definition data_merge (obj old : Data) : Data :=
  mkData (filter (λ kv, ¬ immutable kv.1) (fields obj) ∪ fields old)
         (match extraData obj with Some x => Some x | None => extraData old end).

(** [ele.removeData(key)] on a string field *)
Definition removeData (key : string) (e : Ele) : Ele :=
  set_data (mkData (delete key (fields (data e))) (extraData (data e))) e.

(** A change made to the element under id [i], through a reference to it. *)
Definition update_ele (i : string) (f : Ele → Ele) (g : Cy) : Cy :=
  set_elements ((λ e, if bool_decide (id_of e = Some i) then f e else e) <$> elements g) g.

(** [node.parent()], [node.children()], [node.isChild()], [node.isParent()] *)
Definition parent (g : Cy) (n : Ele) : list Ele :=
  match field "parent" n with
  | Some p => filter (λ m, id_of m = Some p) (nodes g)
  | None => []
  end.
Definition children (g : Cy) (n : Ele) : list Ele :=
  match id_of n with
  | Some i => filter (λ m, field "parent" m = Some i) (nodes g)
  | None => []
  end.
Definition nonempty (l : list Ele) : bool := match l with [] => false | _ => true end.
Definition isChild (g : Cy) (n : Ele) : bool := isNode n && nonempty (parent g n).
Definition isParent (g : Cy) (n : Ele) : bool := isNode n && nonempty (children g n).

(** [a.same(b)] on two elements of one graph *)
Definition same (a b : Ele) : bool := bool_decide (id_of a = id_of b).

(** Node [i] is an ancestor of [e], following at most [fuel] parent links. *)
Fixpoint has_ancestor (fuel : nat) (g : Cy) (i : string) (e : Ele) : bool :=
  match fuel with
  | O => false
  | S fuel' =>
      match field "parent" e with
      | Some p => bool_decide (p = i) || existsb (has_ancestor fuel' g i) (parent g e)
      | None => false
      end
  end.

(** The ids that go when the element under [i] is removed: its own and
    those of the nodes below it. *)
Definition removed_with (g : Cy) (i : string) (e : Ele) : bool :=
  bool_decide (id_of e = Some i)
  || isNode e && has_ancestor (length (elements g)) g i e.

Definition removed_ids (g : Cy) (i : string) : list string :=
  omap id_of (filter (λ e, removed_with g i e = true) (elements g)).

Definition is_removed (gone : list string) (x : option string) : bool :=
  match x with
  | Some s => bool_decide (s ∈ gone)
  | None => false
  end.

Definition survives (gone : list string) (e : Ele) : bool :=
  negb (is_removed gone (id_of e))
  && (isNode e
      || negb (is_removed gone (field "source" e))
         && negb (is_removed gone (field "target" e))).

(** [ele.remove()]: the element goes, with the nodes below it when it is a
    compound node, and with every edge that has one of them as an end. *)
Definition remove (g : Cy) (i : string) : Cy :=
  set_elements (filter (λ e, survives (removed_ids g i) e = true) (elements g)) g.

(** ** The endpoint allocator *)

Section Allocator.
Import JsString Regex.

(** [usedNumbers.add(x)], [usedNumbers.has(x)] on a [Set<number>] kept in
    insertion order. *)
Definition set_add (x : jsnum) (used : list jsnum) : list jsnum :=
  if bool_decide (x ∈ used) then used else used ++ [x].
Definition set_has (used : list jsnum) (x : jsnum) : bool := bool_decide (x ∈ used).

(** [node.data('extraData')?.kind || 'default'] on a collection: the data
    of its first element. *)
Definition kindOf (node : list Ele) : string :=
  or_else (e ← head node; x ← extraData (data e); x !! "kind") "default".

(** [ifaceMap[kind] || 'eth{n}'] with [ifaceMap = window.ifacePatternMapping || {}] *)
Definition patternOf (c : Controller) (nodeId : string) : string :=
  let ifaceMap := default ∅ (ifacePatternMapping (window c)) in
  let node := getElementById (cy c) nodeId in
  or_else (ifaceMap !! kindOf node) "eth{n}".

Definition placeholder : string := "__N__".

Definition regexStr (pattern : string) : string :=
  let escaped := escape (replace "{n}" placeholder pattern) in
  "^" +:+ replace placeholder "(\d+)" escaped +:+ "$".

(** The body of the inner [forEach] for one edge and one key. *)
Definition scan_key (re : list item) (nodeId : string) (edge : Ele)
    (used : list jsnum) (key : string) : list jsnum :=
  let endpoint := field key edge in
  let isNodeEndpoint :=
    bool_decide (field "source" edge = Some nodeId) && bool_decide (key = "sourceEndpoint")
    || bool_decide (field "target" edge = Some nodeId) && bool_decide (key = "targetEndpoint") in
  if negb (truthy endpoint) || negb isNodeEndpoint then used
  else match exec re (default "" endpoint) with
       | Some caps => set_add (parseInt (head caps)) used
       | None => used
       end.

Definition scan_edge (re : list item) (nodeId : string)
    (used : list jsnum) (edge : Ele) : list jsnum :=
  foldl (scan_key re nodeId edge) used ["sourceEndpoint"; "targetEndpoint"].

Definition usedNumbers (re : list item) (nodeId : string) (es : list Ele) : list jsnum :=
  foldl (scan_edge re nodeId) [] es.

(** [while (usedNumbers.has(endpointNum)) endpointNum++], at most [fuel]
    tests of the condition; [None] when they do not suffice. *)
Fixpoint first_unused (fuel : nat) (used : list jsnum) (endpointNum : N) : option N :=
  match fuel with
  | O => None
  | S fuel' =>
      if set_has used (Num endpointNum) then first_unused fuel' used (endpointNum + 1)
      else Some endpointNum
  end.

(** [getNextEndpoint(nodeId)].  [None] stands for a call that does not
    return: a [SyntaxError] of [new RegExp], or a loop that does not end
    within one test per used number and one more. *)
Definition getNextEndpoint (c : Controller) (nodeId : string) : option string :=
  let pattern := patternOf c nodeId in
  patternRegex ← RegExp (regexStr pattern);
  let edges := edges_touching (cy c) nodeId in
  let used := usedNumbers patternRegex nodeId edges in
  endpointNum ← first_unused (S (length used)) used 1;
  Some (replace "{n}" (toString endpointNum) pattern).

End Allocator.

(** *** What the allocator's matcher is

    The regular expression of a pattern, read off the pattern itself:
    the literal characters of the pattern, with the first placeholder
    turned into the digit group. *)

Section Matcher.
Import JsString Regex.

Fixpoint literal (s : string) : list item :=
  match s with
  | EmptyString => []
  | String c s' => Lit c :: literal s'
  end.

Fixpoint compile (q : string) : list item :=
  if starts_with placeholder q then Digits :: literal (slice 5 q)
  else match q with
       | EmptyString => []
       | String c q' => Lit c :: compile q'
       end.

(** The number an endpoint carries under a pattern: the endpoint matches
    the pattern's regular expression and [parseInt] of the first group is
    that number. *)
Definition names_number (pattern endpoint : string) (k : N) : Prop :=
  ∃ re caps, RegExp (regexStr pattern) = Some re
             ∧ exec re endpoint = Some caps
             ∧ parseInt (head caps) = Num k.

(** Number [k] is in use on a node: an edge of the graph has the node as
    its source and a [sourceEndpoint] carrying [k], or has it as its target
    and a [targetEndpoint] carrying [k]. *)
Definition in_use (c : Controller) (nodeId : string) (k : N) : Prop :=
  ∃ edge endpoint,
    edge ∈ edges (cy c)
    ∧ names_number (patternOf c nodeId) endpoint k
    ∧ ((field "source" edge = Some nodeId ∧ field "sourceEndpoint" edge = Some endpoint)
       ∨ (field "target" edge = Some nodeId ∧ field "targetEndpoint" edge = Some endpoint)).

(** The pattern with its placeholder filled in. *)
Definition instantiate (pattern : string) (k : N) : string :=
  replace "{n}" (toString k) pattern.

End Matcher.

(** ** The edge-draw subsystem *)

Section EdgeDraw.
Import JsString.

Definition role (n : Ele) : option string := field "topoViewerRole" n.

(** [canConnect(sourceNode, targetNode)] of the edgehandles options *)
Definition canConnect (g : Cy) (sourceNode targetNode : Ele) : bool :=
  let sourceRole := role sourceNode in
  let targetRole := role targetNode in
  negb (bool_decide (sourceRole = Some "freeText"))
  && negb (bool_decide (targetRole = Some "freeText"))
  && negb (same sourceNode targetNode)
  && negb (isParent g sourceNode)
  && negb (isParent g targetNode)
  && negb (bool_decide (targetRole = Some "dummyChild")).




End EdgeDraw.

(** ** Inbound [updateTopology] patches *)

Section Patches.

(** [el.classes] of a patch: a string, or something else the store takes
    (an array of class names). *)
Inductive ClassesArg :=
  | ClassString (s : string)
  | ClassArray (l : list string).

(** One entry of [msg.data]: [{group?, data?, classes?}]. *)
Record PatchEl := mkPatch {
  p_group : option Group;
  p_data : option Data;
  p_classes : option ClassesArg;
}.

(** [el?.data?.id], for an entry that may be [null] *)
Definition patch_id (el : option PatchEl) : option string :=
  e ← el; d ← p_data e; fields d !! "id".

Definition class_list (x : option ClassesArg) : list string :=
  match x with
  | Some (ClassString s) => String.words s
  | Some (ClassArray l) => l
  | None => []
  end.

(** [cy.add(el)]: the group is the one given, or else [edges] for data
    with a source and a target and [nodes] otherwise.  What the store
    itself refuses of an element is not the controller's and is left out. *)
Definition new_element (el : PatchEl) : Ele :=
  let d := default (mkData ∅ None) (p_data el) in
  let grp :=
    match p_group el with
    | Some grp => grp
    | None => if bool_decide (is_Some (fields d !! "source") ∧ is_Some (fields d !! "target"))
              then Edges else Nodes
    end in
  mkEle grp d (class_list (p_classes el)) true.

Definition cy_add (g : Cy) (el : PatchEl) : Cy :=
  set_elements (elements g ++ [new_element el]) g.

(** The body of [elements.forEach] in the [updateTopology] branch. *)
Definition applyPatch (g : Cy) (el : option PatchEl) : Cy :=
  let i := patch_id el in
  if negb (truthy i) then g
  else
    match el with
    | None => g
    | Some el =>
        let i := default "" i in
        let existing := getElementById g i in
        if nonempty existing then
          let g1 := update_ele i
                      (λ e, set_data (data_merge (default (mkData ∅ None) (p_data el)) (data e)) e)
                      g in
          match p_classes el with
          | Some (ClassString s) => update_ele i (set_classes (String.words s)) g1
          | _ => g1
          end
        else cy_add g el
    end.

(** The [updateTopology] message: [msg.data] is [None] when it is not an
    array.  ([loadCytoStyle], which follows, restyles and changes no
    element.) *)
Definition updateTopology (g : Cy) (msg_data : option (list (option PatchEl))) : Cy :=
  match msg_data with
  | Some elements => foldl applyPatch g elements
  | None => g
  end.

End Patches.

(** ** The deployment lock *)

Section Lock.

(** [checkDeploymentState()]: locked exactly when [window.isLabDeployed === true] *)
Definition checkDeploymentState (c : Controller) : Controller :=
  set_isEditingLocked (bool_decide (isLabDeployed (window c) = Some true)) c.

Definition isEditingBlocked (c : Controller) : bool := isEditingLocked c.

(** [disableEditingContextMenus()], with the menu extension registered
    ([cy.cxtmenu] is its function): the instances found in
    [cy._private.cxtmenu] are destroyed, that slot is cleared, and the
    [cxtmenu] datum is taken off every element. *)
Definition disableEditingContextMenus (g : Cy) : Cy :=
  let instances := default [] (private_cxtmenu g) in
  let g1 := set_cxtmenus (list_difference (cxtmenus g) instances) g in
  let g2 := set_private_cxtmenu None g1 in
  set_elements (removeData "cxtmenu" <$> elements g2) g2.

(** The listeners [applyEditingRestrictions] registers, in its order. *)
Definition lock_listeners : list Listener :=
  [ mkListener "tap" None BlockTap;
    mkListener "cxttap" (Some "node, edge") BlockCxtTapOnElement;
    mkListener "cxttap" None BlockCxtTapOnCanvas;
    mkListener "grab" (Some "node") BlockGrab ].

(** [cy.nodes().ungrabify()] and [cy.nodes().grabify()] *)
Definition set_nodes_grabbable (b : bool) (g : Cy) : Cy :=
  set_elements ((λ e, if isNode e then set_grabbable b e else e) <$> elements g) g.

Definition applyEditingRestrictions (c : Controller) : Controller :=
  if negb (isEditingLocked c) then c
  else
    let c1 := record_call Ungrabify (set_cy (set_nodes_grabbable false (cy c)) c) in
    let c2 := match eh c1 with
              | Some h => record_call EhDisable (set_eh (Some (mkEh false (eh_source h))) c1)
              | None => c1
              end in
    let c3 := set_cy (disableEditingContextMenus (cy c2)) c2 in
    let c4 := match cursor (cy c3) with
              | Some _ => set_cy (set_cursor (Some "not-allowed") (cy c3)) c3
              | None => c3
              end in
    set_cy (set_listeners (listeners (cy c4) ++ lock_listeners) (cy c4)) c4.

(** [initializeContextMenu(mode)]: the free-text menu in both modes, the
    node, group and edge menus in edit mode. *)
Definition free_text_menu : CxtMenu := mkCxtMenu FreeTextMenu ["Edit Text"; "Remove Text"].
Definition edit_menus : list CxtMenu :=
  [ mkCxtMenu NodeMenu ["Edit Node"; "Delete Node"; "Add Link"];
    mkCxtMenu GroupMenu ["Edit Group"; "Delete Group"];
    mkCxtMenu EdgeMenu ["Edit Link"; "Delete Link"] ].

Definition initializeContextMenu (edit : bool) (g : Cy) : Cy :=
  let g1 := set_cxtmenus (cxtmenus g ++ [free_text_menu]) g in
  if edit then set_cxtmenus (cxtmenus g1 ++ edit_menus) g1 else g1.

Definition removeEditingRestrictions (c : Controller) : Controller :=
  let c1 := record_call Grabify (set_cy (set_nodes_grabbable true (cy c)) c) in
  let c2 := match eh c1 with
            | Some h => record_call EhEnable (set_eh (Some (mkEh true (eh_source h))) c1)
            | None => c1
            end in
  let c3 := match cursor (cy c2) with
            | Some _ => set_cy (set_cursor (Some "") (cy c2)) c2
            | None => c2
            end in
  set_cy (initializeContextMenu true (cy c3)) c3.

Definition bool_toString (b : bool) : string := if b then "true" else "false".

(** The handler [setupDeploymentStateListener] registers, on a message of
    type [deployment-state-changed] carrying the boolean [b].  (The panel's
    own [updateIconForDeploymentState] redraws an icon from the attribute
    and is not part of the controller.) *)
Definition deploymentStateChanged (b : bool) (c : Controller) : Controller :=
  let c0 := set_window (mkWindow (Some b) (ifacePatternMapping (window c))) c in
  let wasLocked := isEditingLocked c0 in
  let c1 := checkDeploymentState c0 in
  let c2 :=
    if isEditingLocked c1 && negb wasLocked then applyEditingRestrictions c1
    else if negb (isEditingLocked c1) && wasLocked then removeEditingRestrictions c1
    else c1 in
  if floatingActionPanel c2
  then match fabMain c2 with
       | Some _ => set_fabMain (Some (bool_toString b)) c2
       | None => c2
       end
  else c2.

End Lock.

(** ** The edit-mode click router and the Delete Node command *)

Section Clicks.

Record MouseEvent := mkMouse {
  ctrlKey : bool;
  shiftKey : bool;
  altKey : bool;
}.

(** [eh.start(node)]: a draw begins from [node] when the extension is
    enabled. *)
Definition eh_start (node : Ele) (h : EdgeHandles) : EdgeHandles :=
  if eh_enabled h then mkEh true (id_of node) else h.

(** [f] applied under the id of an element of the store *)
Definition at_id (node : Ele) (f : string → Cy → Cy) (g : Cy) : Cy :=
  match id_of node with
  | Some i => f i g
  | None => g
  end.

(** [node.move({ parent: null })] *)
Definition orphan (node : Ele) (g : Cy) : Cy :=
  at_id node (λ i, update_ele i (removeData "parent")) g.

(** [onNodeClick] of the edit mode: [switch (true)] takes the first case
    whose condition holds. *)
Definition onNodeClick (c : Controller) (originalEvent : MouseEvent) (node : Ele)
    : Controller :=
  let c := set_nodeClicked true c in
  let isNodeInEditMode := bool_decide (field "editor" node = Some "true") in
  if ctrlKey originalEvent && isChild (cy c) node then
    set_cy (orphan node (cy c)) c
  else if shiftKey originalEvent && negb (bool_decide (role node = Some "freeText")) then
    set_eh (eh_start node <$> eh c) (set_isEdgeHandlerActive true c)
  else if altKey originalEvent && isNodeInEditMode then
    set_cy (at_id node (λ i g, remove g i) (cy c)) c
  else c.

(** The [select] of the Delete Node command of the node menu. *)
Definition deleteNode (g : Cy) (ele : Ele) : Cy :=
  if negb (isNode ele) then g
  else
    let parent := parent g ele in
    let g1 := at_id ele (λ i g, remove g i) g in
    match parent with
    | p :: _ =>
        if bool_decide (length (children g1 p) = 0) then at_id p (λ i g, remove g i) g1
        else g1
    | [] => g1
    end.

End Clicks.

(** ** The autosave and its timers

    The page is one thread; time passes between events.  A world is the
    controller, the clock (in ms), the timers that [setTimeout] has armed
    and not fired or cleared, the variable [timeout] of the [debounce]
    closure, the times at which [viewportButtonsSaveTopo] was called, and
    the number of those calls whose promise has not settled. *)

Section AutoSave.

Record Timer := mkTimer {
  timer_id : nat;
  timer_due : nat;
}.

Record World := mkWorld {
  controller : Controller;
  now : nat;
  next_timer : nat;
  timers : list Timer;
  timeout : option nat;
  saves : list nat;
  outstanding : nat;
}.

(** The quiet period [setupAutoSave] gives [debounce]. *)
Definition wait : nat := 500.

(** [clearTimeout(id)]: nothing happens for an id that is not armed. *)
Definition clearTimeout (i : nat) (w : World) : World :=
  mkWorld (controller w) (now w) (next_timer w)
    (filter (λ t, timer_id t ≠ i) (timers w)) (timeout w) (saves w) (outstanding w).

(** [setTimeout(f, delay)] for the debounced function; the id it returns
    is the world's [next_timer]. *)
Definition setTimeout (delay : nat) (w : World) : World :=
  mkWorld (controller w) (now w) (S (next_timer w))
    (timers w ++ [mkTimer (next_timer w) (now w + delay)]) (timeout w) (saves w)
    (outstanding w).

Definition set_timeout_var (x : option nat) (w : World) : World :=
  mkWorld (controller w) (now w) (next_timer w) (timers w) x (saves w) (outstanding w).

(** One call of the function [debounce] returns:
    [if (timeout) clearTimeout(timeout); timeout = setTimeout(..., wait)]. *)
Definition autoSave (w : World) : World :=
  let w1 := match timeout w with
            | Some i => clearTimeout i w
            | None => w
            end in
  set_timeout_var (Some (next_timer w1)) (setTimeout wait w1).

(** The debounced function itself, run when its timer fires: it returns
    at once while an edge is being drawn or editing is blocked, and calls
    [saveManager.viewportButtonsSaveTopo] otherwise. *)
Definition debounced (w : World) : World :=
  if isEdgeHandlerActive (controller w) || isEditingBlocked (controller w) then w
  else mkWorld (controller w) (now w) (next_timer w) (timers w) (timeout w)
         (saves w ++ [now w]) (S (outstanding w)).

(** The listeners [setupAutoSave] registers: the debounced function on
    [add], [remove] and [data] and on the [dragfree] of a node, and on
    [position] a function that calls it unless the node is grabbed.  The
    event [Mutation] below is one call of the debounced function through
    any of them. *)
Definition autosave_listeners : list Listener :=
  [ mkListener "add remove data" None AutoSave;
    mkListener "position" None AutoSaveUnlessGrabbed;
    mkListener "dragfree" (Some "node") AutoSave ].

Definition setupAutoSave (g : Cy) : Cy :=
  set_listeners (listeners g ++ autosave_listeners) g.

(** The armed timer to fire first among those due by [t]: the earliest,
    and of two equally early the one armed first. *)
Fixpoint next_due (t : nat) (l : list Timer) : option Timer :=
  match l with
  | [] => None
  | x :: l' =>
      match next_due t l' with
      | Some y => if bool_decide (timer_due x ≤ t ∧ timer_due x ≤ timer_due y)
                  then Some x else Some y
      | None => if bool_decide (timer_due x ≤ t) then Some x else None
      end
  end.

Definition fire (x : Timer) (w : World) : World :=
  debounced
    (mkWorld (controller w) (max (now w) (timer_due x)) (next_timer w)
       (filter (λ t, timer_id t ≠ timer_id x) (timers w)) (timeout w) (saves w)
       (outstanding w)).

Fixpoint run_timers (fuel : nat) (t : nat) (w : World) : World :=
  match fuel with
  | O => w
  | S fuel' =>
      match next_due t (timers w) with
      | Some x => run_timers fuel' t (fire x w)
      | None => w
      end
  end.

(** Time passes until [t]: the timers due by then fire, each at its time. *)
Definition advance (t : nat) (w : World) : World :=
  let w1 := run_timers (length (timers w)) t w in
  mkWorld (controller w1) (max (now w1) t) (next_timer w1) (timers w1) (timeout w1)
    (saves w1) (outstanding w1).

Inductive Event :=
  (** an [add], [remove] or [data] event, a [position] event of a node
      that is not grabbed, or a [dragfree] of a node *)
  | Mutation
  (** a [position] event of a node that is grabbed *)
  | PositionWhileGrabbed
  (** the promise of the oldest unsettled save settles *)
  | SaveSettled
  (** the message [deployment-state-changed] *)
  | DeploymentStateChanged (isLabDeployed : bool)
  (** [ehstart], [ehstop], [ehcancel] *)
  | EhStart
  | EhStop
  | EhCancel.

Definition set_controller (c : Controller) (w : World) : World :=
  mkWorld c (now w) (next_timer w) (timers w) (timeout w) (saves w) (outstanding w).

Definition handle (ev : Event) (w : World) : World :=
  match ev with
  | Mutation => autoSave w
  | PositionWhileGrabbed => w
  | SaveSettled =>
      mkWorld (controller w) (now w) (next_timer w) (timers w) (timeout w) (saves w)
        (pred (outstanding w))
  | DeploymentStateChanged b => set_controller (deploymentStateChanged b (controller w)) w
  | EhStart => set_controller (set_isEdgeHandlerActive true (controller w)) w
  | EhStop | EhCancel => set_controller (set_isEdgeHandlerActive false (controller w)) w
  end.

(** An event arriving at time [t]: what was due by [t] has fired before. *)
Definition step (w : World) (e : nat * Event) : World :=
  handle e.2 (advance e.1 w).

Definition run (w : World) (trace : list (nat * Event)) : World :=
  foldl step w trace.

(** A world at rest at time [t0]: no timer armed, nothing saved yet. *)
Definition rest (c : Controller) (t0 : nat) : World :=
  mkWorld c t0 1 [] None [] 0.

End AutoSave.

(** ** Sample graphs *)

Section Samples.

Definition sample_node (i kind : string) : Ele :=
  mkEle Nodes (mkData {[ "id" := i ]} (Some {[ "kind" := kind ]})) [] true.

Definition sample_edge (i src tgt srcEp tgtEp : string) : Ele :=
  mkEle Edges
    (mkData (list_to_map [("id", i); ("source", src); ("target", tgt);
                          ("sourceEndpoint", srcEp); ("targetEndpoint", tgtEp)])
            None)
    [] true.

Definition sample_cy (l : list Ele) : Cy := mkCy l [] (Some "") [] None.

Definition sample_controller (l : list Ele) (counters : gmap string N) : Controller :=
  mkController (sample_cy l) (Some (mkEh true None)) false true false counters
    (mkWindow (Some false) (Some {[ "nokia_srlinux" := "e1-{n}" ]}))
    false true (Some "false") [].

(** [r1] (a kind with its own pattern) carries e1-1, e1-3 and e1-4; [r2]
    (a kind without pattern) carries eth1 twice and eth3; [r3] has no edge. *)
Definition sample_graph : list Ele :=
  [ sample_node "r1" "nokia_srlinux"; sample_node "r2" "linux";
    sample_node "r3" "linux";
    sample_edge "r1-r2" "r1" "r2" "e1-1" "eth1";
    sample_edge "r2-r1" "r2" "r1" "eth3" "e1-3";
    sample_edge "r1-r2b" "r1" "r2" "e1-4" "eth1" ].

(** A group [grp] with the single child [n1], drawn in the editor; a
    free-text annotation [txt]; two plain routers joined by one edge. *)
Definition node_with (l : list (string * string)) : Ele :=
  mkEle Nodes (mkData (list_to_map l) None) [] true.

Definition grp : Ele := node_with [("id", "grp"); ("topoViewerRole", "group")].
Definition n1 : Ele :=
  node_with [("id", "n1"); ("parent", "grp"); ("topoViewerRole", "pe"); ("editor", "true")].
Definition txt : Ele := node_with [("id", "txt"); ("topoViewerRole", "freeText")].
Definition r1 : Ele := node_with [("id", "r1"); ("topoViewerRole", "pe"); ("editor", "true")].
Definition r2 : Ele := node_with [("id", "r2"); ("topoViewerRole", "pe")].

Definition sample_groups : list Ele :=
  [ grp; n1; txt; r1; r2; sample_edge "r1-r2" "r1" "r2" "eth1" "eth1";
    sample_edge "n1-r1" "n1" "r1" "eth1" "eth2" ].

(** A message of five entries on the sample graph: new data and classes
    for [r1], a [null], a patch without id, a new node [r9], and [r9]
    again.  One element is added, [r1] and [r9] carry the patched data. *)
Definition sample_message : list (option PatchEl) :=
  [ Some (mkPatch None (Some (mkData (list_to_map [("id", "r1"); ("name", "core")]) None))
            (Some (ClassString "spine up")));
    None;
    Some (mkPatch None (Some (mkData (list_to_map [("name", "nobody")]) None)) None);
    Some (mkPatch None (Some (mkData (list_to_map [("id", "r9")]) None)) None);
    Some (mkPatch None (Some (mkData (list_to_map [("id", "r9"); ("name", "edge")]) None))
            (Some (ClassArray ["leaf"]))) ].

End Samples.


(** ** Notions used in the proofs *)

Section ProofNotions.
Import JsString Regex.

(** A string without metacharacter: escaping leaves it as it is. *)
Fixpoint plain (s : string) : bool :=
  match s with
  | EmptyString => true
  | String c s' => negb (is_meta c) && plain s'
  end.

(** What one key of one edge adds to the used numbers. *)
Definition contributes (re : list item) (nodeId : string) (edge : Ele)
    (key side : string) (x : jsnum) : Prop :=
  ∃ endpoint caps,
    field side edge = Some nodeId ∧ field key edge = Some endpoint
    ∧ endpoint ≠ "" ∧ exec re endpoint = Some caps ∧ parseInt (head caps) = x.

(** The used numbers from [n] on: the measure that ends the loop. *)
Definition at_least (n : N) (x : jsnum) : bool :=
  match x with
  | Num m => (n <=? m)%N
  | NaN => false
  end.

Definition count_from (n : N) (used : list jsnum) : nat :=
  length (List.filter (at_least n) used).

(** The digit group by itself: [k] is the match of what follows it. *)
Definition digits_then (k : string → option (list string)) : string → option (list string) :=
  fix digits (s : string) : option (list string) :=
    match s with
    | String c s' =>
        if is_digit c then
          match digits s' with
          | Some (d :: caps) => Some (String c d :: caps)
          | _ => cons (String c EmptyString) <$> k s'
          end
        else None
    | EmptyString => None
    end.

(** A node has children: some node of the graph names it as its parent. *)
Definition has_children (g : Cy) (n : Ele) : Prop :=
  ∃ child i, child ∈ nodes g ∧ id_of n = Some i ∧ field "parent" child = Some i.

(** The number of times a call was made. *)
Definition times (x : Call) (l : list Call) : nat :=
  length (filter (λ y, y = x) l).

(** The debounced function is blocked. *)
Definition blocked (w : World) : bool :=
  isEdgeHandlerActive (controller w) || isEditingBlocked (controller w).

(** The one timer of the debounce is armed, set at time [t] and due one
    quiet period later. *)
Definition armed_at (w : World) (t : nat) : Prop :=
  ∃ i, timers w = [mkTimer i (t + wait)] ∧ timeout w = Some i ∧ now w = t.

(** Mutations at the times [ts], each less than a quiet period after the
    one before, the first after [t]. *)
Fixpoint quiet_burst (t : nat) (ts : list nat) : Prop :=
  match ts with
  | [] => True
  | t' :: ts' => t ≤ t' < t + wait ∧ quiet_burst t' ts'
  end.

Definition mutations (ts : list nat) : list (nat * Event) := (λ t, (t, Mutation)) <$> ts.

(** The debounce has no timer armed, or the one its variable [timeout]
    holds, due later than now. *)
Definition one_timer (w : World) : Prop :=
  timers w = [] ∨ ∃ i d, timers w = [mkTimer i d] ∧ timeout w = Some i ∧ now w < d.

End ProofNotions.

(** ** The edge click of the edit mode and the link commands *)

Section EdgeClicks.

(** [onEdgeClick] of the edit mode.  The flag [viewportPanels.edgeClicked]
    it sets is given back beside the controller. *)
Definition onEdgeClick (c : Controller) (originalEvent : MouseEvent) (edge : Ele)
    : Controller * bool :=
  let edgeClicked := true in
  if altKey originalEvent && isViewportDrawerClabEditorChecked c
  then (set_cy (at_id edge (λ i g, remove g i) (cy c)) c, edgeClicked)
  else (c, edgeClicked).

(** The [select] of the Delete Link command of the edge menu. *)
Definition deleteLink (g : Cy) (ele : Ele) : Cy :=
  at_id ele (λ i g, remove g i) g.


End EdgeClicks.

(** ** Lock and unlock in a row *)

Section LockCycle.

(** The lab is deployed and destroyed again: the message
    [deployment-state-changed] with [true], then with [false]. *)
Definition lock_cycle (c : Controller) : Controller :=
  deploymentStateChanged false (deploymentStateChanged true c).

End LockCycle.

(** ** The page

    The controller reaches the page through [document.getElementById] and
    [document.getElementsByClassName] and writes [style.display].  The
    document is modelled by its elements in document order, each with its
    id, its class names and the [display] of its inline style. *)

Section Dom.

Record HtmlElement := mkHtml {
  html_id : string;
  classList : list string;
  style_display : string;
}.

Definition set_display (v : string) (e : HtmlElement) : HtmlElement :=
  mkHtml (html_id e) (classList e) v.

(** [document.getElementById(i)]: the first element with that id, with its
    place in the document. *)
Definition getElementById_html (doc : list HtmlElement) (i : string)
    : option (nat * HtmlElement) :=
  list_find (λ e, html_id e = i) doc.

(** [viewportButtonsTopologyOverview()] *)
Definition viewportButtonsTopologyOverview (doc : list HtmlElement) : list HtmlElement :=
  match getElementById_html doc "viewport-drawer-topology-overview" with
  | None => doc
  | Some (k, overviewDrawer) =>
      if bool_decide (style_display overviewDrawer = "block")
      then alter (set_display "none") k doc
      else
        let hidden :=
          (λ e, if bool_decide ("viewport-drawer" ∈ classList e)
                then set_display "none" e else e) <$> doc in
        alter (set_display "block") k hidden
  end.

End Dom.

(** * The session maps of the extension (extension.ts)

    [refreshSshxSessions] and [refreshGottySessions] rebuild the maps
    [sshxSessions] and [gottySessions] (lab name to link) from the JSON
    that [containerlab tools sshx list] and [containerlab tools gotty list]
    print. *)

Module Sessions.
Import JsString.

(** [s.endsWith(sfx)] *)
Definition ends_with (sfx s : string) : bool :=
  bool_decide (String.length sfx ≤ String.length s)
  && bool_decide (slice (String.length s - String.length sfx) s = sfx).

(** [s.slice(start, -back)] *)
Definition slice_to (start back : nat) (s : string) : string :=
  let len := String.length s in
  let from := min start len in
  let to := len - back in
  String.substring from (to - from) s.

(** [s.replace(/^p/, '')] for a prefix [p] of plain characters *)
Definition strip_prefix (p s : string) : string :=
  if starts_with p s then slice (String.length p) s else s.


(** One entry of the parsed list, by the fields the two functions read:
    [link], [network] and [name] are [None] when they are absent or no
    string, [port] when it is absent or no number (a port is a
    non-negative integer). *)
Record Session := mkSession {
  link : option string;
  network : option string;
  name : option string;
  port : option N;
}.

(** The lab a session belongs to: from the network [clab-<lab>], or else
    from the name [<tool>-<lab>] or [clab-<lab>-<tool>]; [back] is the
    length that [slice] cuts at the end. *)
Definition lab_of (tool_prefix tool_suffix : string) (back : nat) (s : Session)
    : option string :=
  let lab :=
    match network s with
    | Some network =>
        if starts_with "clab-" network then Some (strip_prefix "clab-" network) else None
    | None => None
    end in
  if negb (truthy lab) then
    match name s with
    | Some name =>
        if starts_with tool_prefix name then Some (strip_prefix tool_prefix name)
        else if starts_with "clab-" name && ends_with tool_suffix name
             then Some (slice_to 5 back name)
             else lab
    | None => lab
    end
  else lab.

(** The body of [parsed.forEach] in [refreshSshxSessions] *)
Definition sshx_put (sshxSessions : gmap string string) (s : Session)
    : gmap string string :=
  if negb (truthy (link s)) || bool_decide (link s = Some "N/A") then sshxSessions
  else
    let lab := lab_of "sshx-" "-sshx" 5 s in
    if truthy lab then <[default "" lab := default "" (link s)]> sshxSessions
    else sshxSessions.

(** [parsed.forEach(f)] on a list whose entries are objects or [null]:
    reading a field of [null] throws, which ends the loop with what was
    stored so far (the enclosing [try] catches it). *)
Fixpoint forEach_session {A} (f : A → Session → A) (acc : A)
    (parsed : list (option Session)) : A :=
  match parsed with
  | [] => acc
  | None :: _ => acc
  | Some s :: rest => forEach_session f (f acc s) rest
  end.

(** What the command gave: it failed; it printed nothing; it printed
    what is no JSON array; it printed an array. *)
Inductive Output :=
  | CommandFailed
  | NoOutput
  | NotAnArray
  | Parsed (parsed : list (option Session)).

(** [refreshSshxSessions()], on the map as it was. *)
Definition refreshSshxSessions (out : Output) (sshxSessions : gmap string string)
    : gmap string string :=
  match out with
  | CommandFailed => sshxSessions
  | NoOutput | NotAnArray => ∅
  | Parsed parsed => forEach_session sshx_put ∅ parsed
  end.




End Sessions.

(** ** More sample states *)

Section MoreSamples.

(** The kind [linux] has the fixed interface name [mgmt0], and [r2]
    already carries it on an edge. *)
Definition fixed_name_controller : Controller :=
  set_window (mkWindow (Some false) (Some {[ "linux" := "mgmt0" ]}))
    (sample_controller
       (sample_graph ++ [sample_edge "r2-r3" "r2" "r3" "mgmt0" "eth1"]) ∅).



End MoreSamples.

(** ** More notions used in the proofs *)

Section MoreNotions.

(** Every edge of the graph has a source and a target that are nodes of
    the graph. *)
Definition attached (g : Cy) : Prop :=
  ∀ e, e ∈ edges g →
    ∃ s t ns nt,
      field "source" e = Some s ∧ field "target" e = Some t
      ∧ ns ∈ nodes g ∧ id_of ns = Some s
      ∧ nt ∈ nodes g ∧ id_of nt = Some t.

(** No element names [i] as its parent, its source or its target: what
    holds of the id of an edge. *)
Definition unreferenced (g : Cy) (i : string) : Prop :=
  ∀ e, e ∈ elements g →
    field "parent" e ≠ Some i ∧ field "source" e ≠ Some i ∧ field "target" e ≠ Some i.

(** Consecutive saves are at least a quiet period apart. *)
Definition spaced (l : list nat) : Prop :=
  ∀ l1 a b l2, l = l1 ++ a :: b :: l2 → a + wait ≤ b.

(** The invariant behind it: the saves made are spaced and in the past,
    and the timer, when one is armed, is the one the debounce holds, is
    due later than now and no sooner than a quiet period after the last
    save. *)
Definition paced (w : World) : Prop :=
  spaced (saves w)
  ∧ (∀ s, s ∈ saves w → s ≤ now w)
  ∧ (timers w = []
     ∨ ∃ i d, timers w = [mkTimer i d] ∧ timeout w = Some i ∧ now w < d
              ∧ ∀ s, s ∈ saves w → s + wait ≤ d).


(** What the button does to an element of class [viewport-drawer]. *)
Definition hide_drawer (e : HtmlElement) : HtmlElement :=
  if bool_decide ("viewport-drawer" ∈ classList e) then set_display "none" e else e.

(** A [network] field that gives no lab: absent, not of the form
    [clab-...], or [clab-] alone. *)
Definition names_no_lab (nw : option string) : Prop :=
  match nw with
  | Some n => JsString.starts_with "clab-" n = false ∨ n = "clab-"
  | None => True
  end.

End MoreNotions.

(** * Properties *)

(** ** The matcher and the loop of the allocator *)

Section MatcherFacts.
Import JsString Regex.

Lemma parse_items_lit c s :
  is_meta c = false → parse_items (String c s) = cons (Lit c) <$> parse_items s.
Proof.
  destruct c as [[] [] [] [] [] [] [] []]; intros Hc;
    first [ discriminate Hc | reflexivity ].
Qed.

Lemma parse_items_esc c s :
  is_meta c = true →
  parse_items (String "\" (String c s)) = cons (Lit c) <$> parse_items s.
Proof. intros Hc. cbn. by rewrite Hc. Qed.

Lemma parse_items_escape q : parse_items (escape q +:+ "$") = Some (literal q).
Proof.
  induction q as [|c q IH]; [done|].
  cbn [escape literal]. destruct (is_meta c) eqn:Hc.
  - change (parse_items (String "\" (String c (escape q +:+ "$"))) = Some (Lit c :: literal q)).
    rewrite parse_items_esc by done. by rewrite IH.
  - change (parse_items (String c (escape q +:+ "$")) = Some (Lit c :: literal q)).
    rewrite parse_items_lit by done. by rewrite IH.
Qed.

Lemma starts_with_app p s : starts_with p s = true → s = p +:+ slice (String.length p) s.
Proof.
  revert s. induction p as [|a p IH]; intros [|b s]; cbn; try done.
  rewrite andb_true_iff, bool_decide_eq_true. intros [-> H]. f_equal. by apply IH.
Qed.


Lemma starts_with_escape p q :
  plain p = true →
  starts_with p (escape q) = starts_with p q
  ∧ (starts_with p q = true →
     slice (String.length p) (escape q) = escape (slice (String.length p) q)).
Proof.
  revert q. induction p as [|a p IH]; intros q Hp; [done|].
  cbn in Hp. apply andb_true_iff in Hp as [Ha Hp]. apply negb_true_iff in Ha.
  destruct q as [|b q]; [done|].
  cbn [escape]. destruct (is_meta b) eqn:Hb.
  - assert (a ≠ b) by congruence.
    assert (a ≠ "\"%char) by (intros ->; done).
    cbn. rewrite !bool_decide_eq_false_2 by done. done.
  - cbn. destruct (IH q Hp) as [-> Hs].
    split; [done|]. rewrite andb_true_iff. intros [_ ?]. by apply Hs.
Qed.

Lemma replace_unfold needle repl s :
  replace needle repl s
  = if starts_with needle s then repl +:+ slice (String.length needle) s
    else match s with
         | EmptyString => EmptyString
         | String c s' => String c (replace needle repl s')
         end.
Proof. by destruct s. Qed.

Lemma compile_unfold q :
  compile q
  = if starts_with placeholder q then Digits :: literal (slice 5 q)
    else match q with
         | EmptyString => []
         | String c q' => Lit c :: compile q'
         end.
Proof. by destruct q. Qed.

Lemma replace_escape_cons c q :
  starts_with placeholder (String c q) = false →
  replace placeholder "(\d+)" (escape (String c q))
  = (if is_meta c then String "\" (String c EmptyString) else String c EmptyString)
    +:+ replace placeholder "(\d+)" (escape q).
Proof.
  intros Hs.
  pose proof (starts_with_escape placeholder (String c q) eq_refl) as [He _].
  rewrite Hs in He. cbn [escape] in *.
  destruct (is_meta c) eqn:Hc.
  - rewrite replace_unfold, He.
    rewrite (replace_unfold _ _ (String c _)).
    assert (starts_with placeholder (String c (escape q)) = false) as ->.
    { by destruct c as [[] [] [] [] [] [] [] []]. }
    reflexivity.
  - rewrite replace_unfold, He. reflexivity.
Qed.

Lemma parse_items_compile q :
  parse_items (replace placeholder "(\d+)" (escape q) +:+ "$") = Some (compile q).
Proof.
  induction q as [|c q IH]; [done|].
  destruct (starts_with placeholder (String c q)) eqn:Hs.
  - pose proof (starts_with_escape placeholder (String c q) eq_refl) as [He Hsl].
    rewrite Hs in He. specialize (Hsl Hs).
    rewrite replace_unfold, He, compile_unfold, Hs.
    change (String.length placeholder) with 5 in *. rewrite Hsl.
    change (parse_items ("(\d+)" +:+ (escape (slice 5 (String c q)) +:+ "$"))
            = Some (Digits :: literal (slice 5 (String c q)))).
    change (cons Digits <$> parse_items (escape (slice 5 (String c q)) +:+ "$")
            = Some (Digits :: literal (slice 5 (String c q)))).
    by rewrite parse_items_escape.
  - rewrite replace_escape_cons by done.
    rewrite compile_unfold, Hs.
    destruct (is_meta c) eqn:Hc.
    + change (parse_items (String "\" (String c (replace placeholder "(\d+)" (escape q) +:+ "$")))
              = Some (Lit c :: compile q)).
      rewrite parse_items_esc by done. by rewrite IH.
    + change (parse_items (String c (replace placeholder "(\d+)" (escape q) +:+ "$"))
              = Some (Lit c :: compile q)).
      rewrite parse_items_lit by done. by rewrite IH.
Qed.

(** [new RegExp] never throws on what the allocator builds. *)
Lemma RegExp_regexStr pattern :
  RegExp (regexStr pattern) = Some (compile (replace "{n}" placeholder pattern)).
Proof. unfold regexStr. cbn. apply parse_items_compile. Qed.

End MatcherFacts.

(** ** The matcher, in terms of the pattern's text *)

Section MatcherText.
Import JsString Regex.

Lemma literal_app a b : literal (a +:+ b) = literal a ++ literal b.
Proof. induction a as [|c a IH]; [done|]. cbn. by rewrite IH. Qed.

Lemma exec_Digits re s : exec (Digits :: re) s = digits_then (exec re) s.
Proof. reflexivity. Qed.

Lemma digits_then_cons k c s :
  digits_then k (String c s)
  = if is_digit c then
      match digits_then k s with
      | Some (d :: caps) => Some (String c d :: caps)
      | _ => cons (String c EmptyString) <$> k s
      end
    else None.
Proof. reflexivity. Qed.

Lemma exec_literal b s caps : exec (literal b) s = Some caps ↔ s = b ∧ caps = [].
Proof.
  revert s. induction b as [|c b IH]; intros s; cbn [literal exec].
  - destruct s.
    + split; [by intros [= <-]|by intros [_ ->]].
    + split; [done|by intros [? _]].
  - destruct s as [|c' s]; [split; [done|by intros [? _]]|].
    case_bool_decide as Hc.
    + subst c'. rewrite IH. split; [by intros [-> ->]|]. intros [[= ->] ->]. done.
    + split; [done|]. intros [[= ? ?] _]. done.
Qed.

Lemma app_length_eq (d b : string) : d +:+ b = b → d = "".
Proof.
  intros H. assert (Hl : String.length (d +:+ b) = String.length b) by by rewrite H.
  assert (Hlen : ∀ x y, String.length (x +:+ y) = String.length x + String.length y).
  { clear. induction x as [|c x IH]; intros y; [done|]. cbn. by rewrite IH. }
  rewrite Hlen in Hl. destruct d; [done|]. cbn in Hl. lia.
Qed.

(** The digit group in front of a literal rest: the endpoint is a
    non-empty run of digits and then the rest, and the group captures the
    run. *)
Lemma exec_digits_literal b s caps :
  exec (Digits :: literal b) s = Some caps
  ↔ ∃ d, s = d +:+ b ∧ d ≠ "" ∧ all_digits d = true ∧ caps = [d].
Proof.
  rewrite exec_Digits. revert caps. induction s as [|c s IH]; intros caps.
  { split; [done|]. intros (d & Hd & Hne & _). destruct d; [done|]. discriminate Hd. }
  rewrite digits_then_cons.
  destruct (is_digit c) eqn:Hc.
  2:{ split; [done|]. intros (d & Hd & Hne & Hall & _).
      destruct d as [|c' d]; [done|]. injection Hd as -> _.
      cbn in Hall. by rewrite Hc in Hall. }
  destruct (digits_then (exec (literal b)) s) as [[|d1 caps1]|] eqn:HD.
  - destruct (proj1 (IH _) eq_refl) as (d & _ & _ & _ & ?). done.
  - destruct (proj1 (IH _) eq_refl) as (d & -> & Hne & Hall & [= -> ->]).
    split.
    + intros [= <-]. exists (String c d). cbn. by rewrite Hc.
    + intros (d' & Hd' & Hne' & Hall' & ->). destruct d' as [|c' d']; [done|].
      injection Hd' as <- Hd'. do 3 f_equal.
      assert (Hlen : ∀ x y, String.length (x +:+ y) = String.length x + String.length y).
      { clear. induction x as [|c x IH]; intros y; [done|]. cbn. by rewrite IH. }
      assert (String.length d = String.length d').
      { apply (f_equal String.length) in Hd'. rewrite !Hlen in Hd'. lia. }
      clear -Hd' H. revert d' Hd' H. induction d as [|x d IH]; intros [|y d'] Hd' Hl;
        try done. injection Hd' as -> Hd'. f_equal. apply IH; [done|]. cbn in Hl. lia.
  - split.
    + intros Hex. destruct (exec (literal b) s) as [caps'|] eqn:Hb; [|done].
      apply exec_literal in Hb as [-> ->]. injection Hex as <-.
      exists (String c ""). cbn. by rewrite Hc.
    + intros (d & Hd & Hne & Hall & ->). destruct d as [|c' d]; [done|].
      injection Hd as <- Hd. cbn in Hall. rewrite Hc in Hall. cbn in Hall.
      destruct d as [|c2 d].
      * cbn in Hd. subst s.
        assert (exec (literal b) b = Some []) as -> by by apply exec_literal.
        done.
      * exfalso. assert (None = Some [String c2 d]) as Hbad; [|done].
        apply IH. exists (String c2 d). done.
Qed.

Lemma exec_literal_prefix a re s caps :
  exec (literal a ++ re) s = Some caps ↔ ∃ s', s = a +:+ s' ∧ exec re s' = Some caps.
Proof.
  revert s. induction a as [|c a IH]; intros s.
  - cbn. split; [by exists s|]. by intros (s' & -> & ?).
  - cbn [literal app exec]. destruct s as [|c' s].
    { split; [done|]. by intros (s' & ? & _). }
    case_bool_decide as Hc.
    + subst c'. rewrite IH. split; intros (s' & Hs & ?); exists s'.
      * by subst.
      * by injection Hs as ->.
    + split; [done|]. intros (s' & [= ? ?] & _). done.
Qed.

Lemma replace_split needle repl s :
  replace needle repl s
  = match split_first needle s with
    | Some (a, b) => a +:+ repl +:+ b
    | None => s
    end.
Proof.
  induction s as [|c s IH].
  - cbn. by destruct (starts_with needle "").
  - rewrite replace_unfold. cbn [split_first].
    destruct (starts_with needle (String c s)); [done|].
    rewrite IH. by destruct (split_first needle s) as [[a b]|].
Qed.

Lemma compile_split q :
  compile q
  = match split_first placeholder q with
    | Some (a, b) => literal a ++ Digits :: literal b
    | None => literal q
    end.
Proof.
  induction q as [|c q IH]; [done|].
  rewrite compile_unfold. cbn [split_first].
  destruct (starts_with placeholder (String c q)); [done|].
  rewrite IH. by destruct (split_first placeholder q) as [[a b]|].
Qed.

Lemma parseInt_digits d :
  d ≠ "" → all_digits d = true → parseInt (Some d) = Num (digits_value 0 d).
Proof.
  destruct d as [|c d]; [done|]. intros _ Hall. cbn in Hall.
  apply andb_true_iff in Hall as [Hc _]. unfold parseInt. by rewrite Hc.
Qed.

(** An endpoint carries the number [k] under a pattern exactly when it is
    the pattern's text with a decimal numeral of value [k] in the place of
    the placeholder ([a] and [b] are the text before and after it). *)
Lemma names_number_iff pattern endpoint k :
  names_number pattern endpoint k
  ↔ ∃ a b d,
      split_first placeholder (replace "{n}" placeholder pattern) = Some (a, b)
      ∧ endpoint = a +:+ d +:+ b
      ∧ d ≠ "" ∧ all_digits d = true ∧ digits_value 0 d = k.
Proof.
  unfold names_number. setoid_rewrite RegExp_regexStr. rewrite compile_split.
  destruct (split_first placeholder _) as [[a b]|].
  - split.
    + intros (re & caps & [= <-] & Hex & Hp).
      apply exec_literal_prefix in Hex as (s' & -> & Hex).
      apply exec_digits_literal in Hex as (d & -> & Hne & Hall & ->).
      exists a, b, d. split_and!; try done.
      cbn [head] in Hp. rewrite parseInt_digits in Hp by done. by injection Hp.
    + intros (a' & b' & d & [= <- <-] & -> & Hne & Hall & <-).
      eexists _, [d]. split_and!; [done| |by apply parseInt_digits].
      apply exec_literal_prefix. eexists. split; [done|].
      apply exec_digits_literal. by exists d.
  - split.
    + intros (re & caps & [= <-] & Hex & Hp).
      apply exec_literal in Hex as [_ ->]. done.
    + by intros (? & ? & ? & ? & _).
Qed.

(** Under the default pattern: eth and a numeral. *)
Lemma names_number_eth endpoint k :
  names_number "eth{n}" endpoint k
  ↔ ∃ d, endpoint = "eth" +:+ d ∧ d ≠ "" ∧ all_digits d = true ∧ digits_value 0 d = k.
Proof.
  rewrite names_number_iff. split.
  - intros (a & b & d & [= <- <-] & -> & H). exists d. split; [|done].
    cbn. f_equal. f_equal. f_equal. clear. induction d as [|c d IH]; [done|]. cbn. by rewrite IH.
  - intros (d & -> & H). exists "eth", "", d. split_and!; [done| |apply H..].
    cbn. do 3 f_equal. clear. induction d as [|c d IH]; [done|]. cbn. by rewrite <- IH.
Qed.

(** *** The numeral of a number reads back as the number *)




End MatcherText.

Section AllocatorFacts.
Import JsString Regex.

Lemma elem_of_set_add x y used : x ∈ set_add y used ↔ x ∈ used ∨ x = y.
Proof.
  unfold set_add. case_bool_decide; [naive_solver|].
  rewrite elem_of_app, list_elem_of_singleton. done.
Qed.

Lemma exec_empty re caps : exec re "" = Some caps → caps = [].
Proof. destruct re as [|[c|] re]; cbn; congruence. Qed.


Lemma elem_of_scan_key re nodeId edge used key x :
  x ∈ scan_key re nodeId edge used key
  ↔ x ∈ used
    ∨ (key = "sourceEndpoint" ∧ contributes re nodeId edge key "source" x)
    ∨ (key = "targetEndpoint" ∧ contributes re nodeId edge key "target" x).
Proof.
  unfold scan_key, contributes.
  destruct (field key edge) as [endpoint|] eqn:Hk; cbn [truthy negb orb].
  2:{ naive_solver. }
  change (default "" (Some endpoint)) with endpoint.
  case_bool_decide as He; cbn [negb orb].
  { subst endpoint. naive_solver. }
  destruct (bool_decide (field "source" edge = Some nodeId)) eqn:Hs;
  destruct (bool_decide (key = "sourceEndpoint")) eqn:Hks;
  destruct (bool_decide (field "target" edge = Some nodeId)) eqn:Ht;
  destruct (bool_decide (key = "targetEndpoint")) eqn:Hkt;
  cbn [andb orb negb];
  rewrite ?bool_decide_eq_true, ?bool_decide_eq_false in *;
  try (destruct (exec re endpoint) as [caps|] eqn:Hex; [rewrite elem_of_set_add|]);
  naive_solver.
Qed.

Lemma elem_of_scan_edge re nodeId used edge x :
  x ∈ scan_edge re nodeId used edge
  ↔ x ∈ used
    ∨ contributes re nodeId edge "sourceEndpoint" "source" x
    ∨ contributes re nodeId edge "targetEndpoint" "target" x.
Proof.
  unfold scan_edge. cbn [foldl]. rewrite !elem_of_scan_key. naive_solver.
Qed.

Lemma elem_of_usedNumbers_from re nodeId es acc x :
  x ∈ foldl (scan_edge re nodeId) acc es
  ↔ x ∈ acc
    ∨ ∃ edge, edge ∈ es
        ∧ (contributes re nodeId edge "sourceEndpoint" "source" x
           ∨ contributes re nodeId edge "targetEndpoint" "target" x).
Proof.
  revert acc. induction es as [|e es IH]; intros acc; cbn [foldl].
  - split; [by left|]. intros [?|(e & He & _)]; [done|]. by apply elem_of_nil in He.
  - rewrite IH, elem_of_scan_edge. setoid_rewrite elem_of_cons. naive_solver.
Qed.

Lemma elem_of_usedNumbers re nodeId es x :
  x ∈ usedNumbers re nodeId es
  ↔ ∃ edge, edge ∈ es
      ∧ (contributes re nodeId edge "sourceEndpoint" "source" x
         ∨ contributes re nodeId edge "targetEndpoint" "target" x).
Proof.
  unfold usedNumbers. rewrite elem_of_usedNumbers_from.
  split; [intros [H|H]; [by apply elem_of_nil in H|done]|by right].
Qed.

(** *** The loop ends, on the least unused number *)


Lemma count_from_le n used : count_from n used ≤ length used.
Proof. apply List.filter_length_le. Qed.

Lemma count_from_succ n used :
  Num n ∈ used → count_from (n + 1) used < count_from n used.
Proof.
  unfold count_from. induction used as [|x used IH]; intros Hin.
  { by apply elem_of_nil in Hin. }
  assert (Hmono : length (List.filter (at_least (n + 1)) used)
                  ≤ length (List.filter (at_least n) used)).
  { clear. induction used as [|[|m] used IH]; cbn; [lia..|].
    destruct (N.leb_spec (n + 1) m), (N.leb_spec n m); cbn; lia. }
  apply elem_of_cons in Hin as [<-|Hin].
  - cbn. rewrite N.leb_refl. destruct (N.leb_spec (n + 1) n); [lia|]. cbn. lia.
  - specialize (IH Hin). destruct x as [|m]; cbn; [lia|].
    destruct (N.leb_spec (n + 1) m), (N.leb_spec n m); cbn; lia.
Qed.

Lemma first_unused_spec fuel used n :
  count_from n used < fuel →
  ∃ k, first_unused fuel used n = Some k
       ∧ (n ≤ k)%N ∧ (Num k ∉ used) ∧ ∀ j, (n ≤ j < k)%N → Num j ∈ used.
Proof.
  revert n. induction fuel as [|fuel IH]; intros n Hc; [lia|].
  cbn [first_unused]. unfold set_has. case_bool_decide as Hin.
  - destruct (IH (n + 1)%N) as (k & -> & Hk & Hnot & Hbelow).
    { pose proof (count_from_succ n used Hin). lia. }
    exists k. split_and!; [done|lia|done|].
    intros j Hj. destruct (decide (j = n)) as [->|]; [done|]. apply Hbelow. lia.
  - exists n. split_and!; [done|lia|done|]. intros j Hj. lia.
Qed.

Lemma in_use_iff c nodeId k :
  in_use c nodeId k
  ↔ Num k ∈ usedNumbers (compile (replace "{n}" placeholder (patternOf c nodeId)))
              nodeId (edges_touching (cy c) nodeId).
Proof.
  rewrite elem_of_usedNumbers. unfold in_use, names_number, contributes, edges_touching.
  split.
  - intros (edge & endpoint & He & (re & caps & Hre & Hex & Hp) & Hside).
    rewrite RegExp_regexStr in Hre. injection Hre as <-.
    assert (endpoint ≠ "").
    { intros ->. apply exec_empty in Hex as ->. discriminate Hp. }
    exists edge. split.
    { apply list_elem_of_filter. split; [|done]. destruct Hside as [[? _]|[? _]]; auto. }
    destruct Hside as [[Hs Hf]|[Ht Hf]]; [left|right]; by exists endpoint, caps.
  - intros (edge & He & Hside). apply list_elem_of_filter in He as [_ He].
    destruct Hside as [(ep & caps & ? & ? & ? & ? & ?)|(ep & caps & ? & ? & ? & ? & ?)];
      exists edge, ep; (split; [done|]);
      (split; [eexists _, caps; by rewrite RegExp_regexStr|]); auto.
Qed.

End AllocatorFacts.

Section AllocatorTheorems.
Import JsString Regex.

Lemma getNextEndpoint_eq c nodeId :
  getNextEndpoint c nodeId
  = instantiate (patternOf c nodeId) <$>
      first_unused
        (S (length (usedNumbers (compile (replace "{n}" placeholder (patternOf c nodeId)))
                      nodeId (edges_touching (cy c) nodeId))))
        (usedNumbers (compile (replace "{n}" placeholder (patternOf c nodeId)))
           nodeId (edges_touching (cy c) nodeId))
        1.
Proof.
  unfold getNextEndpoint. rewrite RegExp_regexStr. cbn [mbind option_bind].
  by destruct (first_unused _ _ _).
Qed.

Lemma getNextEndpoint_least c nodeId :
  ∃ k : N,
    getNextEndpoint c nodeId = Some (instantiate (patternOf c nodeId) k)
    ∧ (1 ≤ k)%N
    ∧ ¬ in_use c nodeId k
    ∧ ∀ j, (1 ≤ j < k)%N → in_use c nodeId j.
Proof.
  rewrite getNextEndpoint_eq.
  set (used := usedNumbers _ _ _).
  destruct (first_unused_spec (S (length used)) used 1) as (k & -> & Hk & Hnot & Hbelow).
  { pose proof (count_from_le 1 used). lia. }
  exists k. split_and!; [done|done| |].
  - by rewrite in_use_iff.
  - intros j Hj. rewrite in_use_iff. by apply Hbelow.
Qed.





End AllocatorTheorems.


Section AllocatorHyper.
Import JsString Regex.



Lemma cy_set_cy g c : cy (set_cy g c) = g.
Proof. reflexivity. Qed.

Lemma elements_update_ele i f g :
  elements (update_ele i f g)
  = (λ e, if bool_decide (id_of e = Some i) then f e else e) <$> elements g.
Proof. reflexivity. Qed.




End AllocatorHyper.

(** ** Connection eligibility *)

Section EdgeDrawTheorems.

Lemma nonempty_true (l : list Ele) : nonempty l = true ↔ ∃ x, x ∈ l.
Proof.
  destruct l as [|x l]; cbn; split; try done.
  - intros [x Hx]. by apply elem_of_nil in Hx.
  - intros _. exists x. by left.
Qed.

Lemma isParent_has_children g n :
  isNode n = true → (isParent g n = true ↔ has_children g n).
Proof.
  intros Hn. unfold isParent, has_children, children. rewrite Hn. cbn [andb].
  rewrite nonempty_true. destruct (id_of n) as [i|].
  - split.
    + intros (child & [Hp Hc]%list_elem_of_filter). by exists child, i.
    + intros (child & i' & Hc & [= <-] & Hp). exists child. by apply list_elem_of_filter.
  - split; [intros (x & Hx); by apply elem_of_nil in Hx|]. by intros (? & ? & _ & ? & _).
Qed.

(** C2. [canConnect] allows a source and a target node exactly when
    neither has the role freeText, they are not the same node, neither has
    children, and the target's role is not dummyChild.  So a draw from a
    node with children, from or to a free-text node, or from a node to
    itself is refused. *)
Theorem canConnect_iff (g : Cy) (sourceNode targetNode : Ele) :
  isNode sourceNode = true → isNode targetNode = true →
  (canConnect g sourceNode targetNode = true
   ↔ role sourceNode ≠ Some "freeText"
     ∧ role targetNode ≠ Some "freeText"
     ∧ id_of sourceNode ≠ id_of targetNode
     ∧ ¬ has_children g sourceNode
     ∧ ¬ has_children g targetNode
     ∧ role targetNode ≠ Some "dummyChild")
  ∧ (has_children g sourceNode → canConnect g sourceNode targetNode = false)
  ∧ (role sourceNode = Some "freeText" → canConnect g sourceNode targetNode = false)
  ∧ (role targetNode = Some "freeText" → canConnect g sourceNode targetNode = false)
  ∧ canConnect g sourceNode sourceNode = false.
Proof.
  intros Hs Ht.
  assert (Hiff : canConnect g sourceNode targetNode = true
   ↔ role sourceNode ≠ Some "freeText"
     ∧ role targetNode ≠ Some "freeText"
     ∧ id_of sourceNode ≠ id_of targetNode
     ∧ ¬ has_children g sourceNode
     ∧ ¬ has_children g targetNode
     ∧ role targetNode ≠ Some "dummyChild").
  { unfold canConnect, same.
    rewrite <- (isParent_has_children g sourceNode Hs).
    rewrite <- (isParent_has_children g targetNode Ht).
    rewrite !andb_true_iff, !negb_true_iff, !bool_decide_eq_false.
    rewrite !not_true_iff_false. tauto. }
  split_and!; [exact Hiff|..].
  - intros Hc. apply not_true_iff_false. rewrite Hiff. tauto.
  - intros Hr. apply not_true_iff_false. rewrite Hiff. tauto.
  - intros Hr. apply not_true_iff_false. rewrite Hiff. tauto.
  - unfold canConnect, same. rewrite (bool_decide_eq_true_2 (id_of sourceNode = id_of sourceNode)) by done.
    cbn. by rewrite !andb_false_r.
Qed.

(** In the sample: two routers may be joined; the group, the annotation
    and a router with itself may not. *)
Lemma canConnect_iff_sample :
  canConnect (sample_cy sample_groups) r1 r2 = true
  ∧ canConnect (sample_cy sample_groups) grp r1 = false
  ∧ canConnect (sample_cy sample_groups) txt r1 = false
  ∧ canConnect (sample_cy sample_groups) r1 txt = false
  ∧ canConnect (sample_cy sample_groups) r1 r1 = false.
Proof.
  split_and!.
  - destruct (canConnect_iff (sample_cy sample_groups) r1 r2 eq_refl eq_refl) as (Hiff & _).
    apply Hiff.
    split_and!; try (rewrite <- isParent_has_children by reflexivity); discriminate.
  - destruct (canConnect_iff (sample_cy sample_groups) grp r1 eq_refl eq_refl)
      as (_ & Hparent & _).
    apply Hparent, isParent_has_children; reflexivity.
  - destruct (canConnect_iff (sample_cy sample_groups) txt r1 eq_refl eq_refl)
      as (_ & _ & Hsource & _).
    apply Hsource. reflexivity.
  - destruct (canConnect_iff (sample_cy sample_groups) r1 txt eq_refl eq_refl)
      as (_ & _ & _ & Htarget & _).
    apply Htarget. reflexivity.
  - destruct (canConnect_iff (sample_cy sample_groups) r1 r1 eq_refl eq_refl)
      as (_ & _ & _ & _ & Hself).
    exact Hself.
Defined.

End EdgeDrawTheorems.

(** ** The click router *)

Section ClickTheorems.

Lemma elem_of_removed_ids g i j :
  j ∈ removed_ids g i
  ↔ ∃ e, e ∈ elements g ∧ removed_with g i e = true ∧ id_of e = Some j.
Proof.
  unfold removed_ids. rewrite list_elem_of_omap.
  setoid_rewrite list_elem_of_filter. naive_solver.
Qed.

Lemma elem_of_remove g i e :
  e ∈ elements (remove g i)
  ↔ e ∈ elements g ∧ survives (removed_ids g i) e = true.
Proof. unfold remove. cbn. rewrite list_elem_of_filter. tauto. Qed.

(** What [remove] takes away and what it keeps: the element under the id
    goes, with every edge that ends at it; what stays is as it was. *)
Lemma remove_spec g i e :
  e ∈ elements (remove g i) →
  e ∈ elements g
  ∧ ((∃ x, x ∈ elements g ∧ id_of x = Some i) →
     id_of e ≠ Some i
     ∧ (isEdge e = true → field "source" e ≠ Some i ∧ field "target" e ≠ Some i)).
Proof.
  rewrite elem_of_remove. intros [He Hs]. split; [done|].
  intros (x & Hx & Hxi).
  assert (Hi : i ∈ removed_ids g i).
  { apply elem_of_removed_ids. exists x. split_and!; [done| |done].
    unfold removed_with. by rewrite bool_decide_eq_true_2. }
  unfold survives in Hs. apply andb_true_iff in Hs as [H1 H2]. split.
  - intros Heq. rewrite Heq in H1. cbn in H1. by rewrite bool_decide_eq_true_2 in H1.
  - intros Hedge. unfold isEdge, isNode in *. apply bool_decide_eq_true in Hedge.
    rewrite bool_decide_eq_false_2 in H2 by (rewrite Hedge; discriminate).
    cbn in H2. apply andb_true_iff in H2 as [Hsrc Htgt].
    split; intros Heq; [rewrite Heq in Hsrc|rewrite Heq in Htgt]; cbn in *;
      by rewrite bool_decide_eq_true_2 in *.
Qed.

Lemma field_removeData key k e :
  field k (removeData key e) = if bool_decide (k = key) then None else field k e.
Proof.
  unfold field, removeData. cbn. case_bool_decide as Hk.
  - subst. apply lookup_delete_eq.
  - by apply lookup_delete_ne.
Qed.




(** Clicks on the sample graph: Ctrl comes first, then Shift, then Alt. *)
Example onNodeClick_sample :
  let c := sample_controller sample_groups ∅ in
  (* Ctrl+Shift on the child n1: orphaned, no draw *)
  (field "parent" <$> getElementById (cy (onNodeClick c (mkMouse true true false) n1)) "n1"
   = [None]
   ∧ isEdgeHandlerActive (onNodeClick c (mkMouse true true false) n1) = false)
  (* Ctrl+Shift on r1, which has no parent: a draw starts *)
  ∧ (isEdgeHandlerActive (onNodeClick c (mkMouse true true false) r1) = true
     ∧ eh (onNodeClick c (mkMouse true true false) r1) = Some (mkEh true (Some "r1")))
  (* Shift on the annotation: nothing *)
  ∧ onNodeClick c (mkMouse false true false) txt = set_nodeClicked true c
  (* Alt on r1 (drawn in the editor): r1 and its two edges go *)
  ∧ id_of <$> elements (cy (onNodeClick c (mkMouse false false true) r1))
    = [Some "grp"; Some "n1"; Some "txt"; Some "r2"]
  (* Alt on r2 (loaded from the file): nothing *)
  ∧ onNodeClick c (mkMouse false false true) r2 = set_nodeClicked true c.
Proof. cbv zeta. split_and!; vm_compute; reflexivity. Qed.

End ClickTheorems.

(** ** Deleting a node *)

Section DeleteTheorems.

(** What the Delete Node command does about the parent. *)
Lemma deleteNode_parent g ele i p rest :
  isNode ele = true → id_of ele = Some i → parent g ele = p :: rest →
  (children (remove g i) p = [] →
   deleteNode g ele = at_id p (λ j g', remove g' j) (remove g i))
  ∧ (children (remove g i) p ≠ [] → deleteNode g ele = remove g i).
Proof.
  intros Hn Hi Hp. unfold deleteNode. rewrite Hn, Hp. cbn [negb].
  assert (at_id ele (λ j g', remove g' j) g = remove g i) as ->.
  { unfold at_id. by rewrite Hi. }
  split; intros Hc.
  - by rewrite Hc.
  - rewrite bool_decide_eq_false_2; [done|]. by destruct (children _ p).
Qed.

(** The Delete Node command leaves no parent without children: when the
    node was the last child, nothing under the parent's id is left. *)
Lemma deleteNode_removes_childless_parent g ele i p rest j e :
  isNode ele = true → id_of ele = Some i → parent g ele = p :: rest →
  id_of p = Some j → children (remove g i) p = [] →
  e ∈ elements (deleteNode g ele) → id_of e ≠ Some j.
Proof.
  intros Hn Hi Hp Hj Hc.
  destruct (deleteNode_parent g ele i p rest Hn Hi Hp) as [H _]. rewrite (H Hc).
  unfold at_id. rewrite Hj. intros He.
  apply remove_spec in He as [He Hgone].
  destruct (decide (id_of e = Some j)) as [Heq|]; [|done].
  apply Hgone. by exists e.
Qed.

(** C9, on the code: an Alt+click removes the only child [n1] of the group
    [grp] (and the edge at [n1]) and leaves [grp] in the graph without
    children, where the Delete Node command on the same node removes [grp]
    as well. *)
Theorem alt_click_leaves_childless_parent :
  let c := sample_controller sample_groups ∅ in
  let c' := onNodeClick c (mkMouse false false true) n1 in
  parent (cy c) n1 = [grp]
  ∧ children (cy c) grp = [n1]
  ∧ elements (cy c') = [grp; txt; r1; r2; sample_edge "r1-r2" "r1" "r2" "eth1" "eth1"]
  ∧ children (cy c') grp = []
  ∧ elements (deleteNode (cy c) n1)
    = [txt; r1; r2; sample_edge "r1-r2" "r1" "r2" "eth1" "eth1"].
Proof. cbv zeta. split_and!; vm_compute; reflexivity. Qed.

End DeleteTheorems.

(** ** The [updateTopology] patches *)

Section PatchTheorems.

(** [ele.data(obj)] key by key. *)
Lemma lookup_data_merge obj old key :
  fields (data_merge obj old) !! key
  = if decide (immutable key) then fields old !! key
    else match fields obj !! key with
         | Some v => Some v
         | None => fields old !! key
         end.
Proof.
  unfold data_merge. cbn [fields]. destruct (decide (immutable key)) as [Hk|Hk].
  - apply lookup_union_r, map_lookup_filter_None. right. intros x _ Hx. by apply Hx.
  - destruct (fields obj !! key) as [v|] eqn:Hv.
    + apply lookup_union_Some_l, map_lookup_filter_Some. by split.
    + apply lookup_union_r, map_lookup_filter_None. by left.
Qed.

Lemma id_of_data_merge obj e : id_of (set_data (data_merge obj (data e)) e) = id_of e.
Proof.
  unfold id_of, field. cbn [data set_data]. rewrite lookup_data_merge.
  destruct (decide (immutable "id")) as [|Hn]; [reflexivity|].
  exfalso. apply Hn. unfold immutable. apply elem_of_cons. by left.
Qed.

Lemma nonempty_getElementById g i :
  nonempty (getElementById g i) = true ↔ ∃ e, e ∈ elements g ∧ id_of e = Some i.
Proof.
  rewrite nonempty_true. unfold getElementById.
  split; intros (e & He); exists e.
  - apply list_elem_of_filter in He. tauto.
  - apply list_elem_of_filter. tauto.
Qed.

Lemma patch_id_Some el i :
  patch_id el = Some i ↔ ∃ p d, el = Some p ∧ p_data p = Some d ∧ fields d !! "id" = Some i.
Proof.
  unfold patch_id. destruct el as [p|]; cbn [mbind option_bind].
  2:{ split; [done|]. by intros (? & ? & ? & _). }
  destruct (p_data p) as [d|] eqn:Hd; cbn [mbind option_bind].
  - split; [intros H; by exists p, d|].
    intros (p' & d' & [= <-] & Hd' & H). rewrite Hd in Hd'. by injection Hd' as <-.
  - split; [done|]. intros (p' & d' & [= <-] & Hd' & _). by rewrite Hd in Hd'.
Qed.

(** A patch for an id that is there. *)
Lemma applyPatch_existing g p i :
  patch_id (Some p) = Some i → i ≠ "" →
  (∃ e, e ∈ elements g ∧ id_of e = Some i) →
  elements (applyPatch g (Some p))
  = (λ e, if bool_decide (id_of e = Some i)
          then mkEle (group e)
                 (data_merge (default (mkData ∅ None) (p_data p)) (data e))
                 (match p_classes p with
                  | Some (ClassString s) => String.words s
                  | _ => classes e
                  end)
                 (grabbable e)
          else e) <$> elements g.
Proof.
  intros Hid Hne Hex. unfold applyPatch. rewrite Hid. cbn [truthy negb default].
  rewrite bool_decide_eq_false_2 by done. cbn [negb].
  apply nonempty_getElementById in Hex. cbn [default from_option id] in *.
  change (default "" (Some i)) with i. rewrite Hex.
  destruct (p_classes p) as [[s|l]|].
  - rewrite !elements_update_ele, <- list_fmap_compose. apply list_fmap_ext.
    intros k e _. unfold compose. cbv beta.
    destruct (bool_decide (id_of e = Some i)) eqn:He.
    + rewrite id_of_data_merge, He. reflexivity.
    + rewrite He. reflexivity.
  - rewrite elements_update_ele. apply list_fmap_ext.
    intros k e _. by case_bool_decide.
  - rewrite elements_update_ele. apply list_fmap_ext.
    intros k e _. by case_bool_decide.
Qed.

(** A patch for an id that is not there. *)
Lemma applyPatch_new g p i :
  patch_id (Some p) = Some i → i ≠ "" →
  (∀ e, e ∈ elements g → id_of e ≠ Some i) →
  applyPatch g (Some p) = cy_add g p.
Proof.
  intros Hid Hne Hnone. unfold applyPatch. rewrite Hid. cbn [truthy negb].
  rewrite bool_decide_eq_false_2 by done. cbn [negb].
  change (default "" (Some i)) with i.
  destruct (nonempty (getElementById g i)) eqn:Hex; [|done].
  apply nonempty_getElementById in Hex as (e & He & Hi). by destruct (Hnone e He).
Qed.

(** A patch without id. *)
Lemma applyPatch_skip g el : truthy (patch_id el) = false → applyPatch g el = g.
Proof. intros H. unfold applyPatch. by rewrite H. Qed.


Example updateTopology_sample :
  let g := updateTopology (sample_cy sample_graph) (Some sample_message) in
  id_of <$> elements g
  = [Some "r1"; Some "r2"; Some "r3"; Some "r1-r2"; Some "r2-r1"; Some "r1-r2b"; Some "r9"]
  ∧ (λ e, (field "name" e, classes e)) <$> getElementById g "r1"
    = [(Some "core", ["spine"; "up"])]
  ∧ (λ e, (field "name" e, classes e)) <$> getElementById g "r9"
    = [(Some "edge", [])].
Proof. vm_compute. split_and!; reflexivity. Qed.

End PatchTheorems.

(** ** The deployment lock *)

Section LockTheorems.

Lemma applyEditingRestrictions_frame c :
  isEditingLocked (applyEditingRestrictions c) = isEditingLocked c
  ∧ window (applyEditingRestrictions c) = window c
  ∧ floatingActionPanel (applyEditingRestrictions c) = floatingActionPanel c
  ∧ fabMain (applyEditingRestrictions c) = fabMain c.
Proof.
  unfold applyEditingRestrictions.
  destruct (isEditingLocked c) eqn:Hl; cbn [negb]; [|by rewrite Hl].
  destruct c as [g [h|] a v l m w n f fm cs]; cbn in *;
    destruct (cursor g); cbn; by rewrite Hl.
Qed.

Lemma removeEditingRestrictions_frame c :
  isEditingLocked (removeEditingRestrictions c) = isEditingLocked c
  ∧ window (removeEditingRestrictions c) = window c
  ∧ floatingActionPanel (removeEditingRestrictions c) = floatingActionPanel c
  ∧ fabMain (removeEditingRestrictions c) = fabMain c.
Proof.
  unfold removeEditingRestrictions.
  destruct c as [g [h|] a v l m w n f fm cs]; cbn; destruct (cursor g); by cbn.
Qed.

(** The restrictions applied on entering Locked, field by field. *)
Lemma applyEditingRestrictions_locked c :
  isEditingLocked c = true →
  listeners (cy (applyEditingRestrictions c)) = listeners (cy c) ++ lock_listeners
  ∧ calls (applyEditingRestrictions c)
    = calls c ++ Ungrabify :: match eh c with Some _ => [EhDisable] | None => [] end
  ∧ eh (applyEditingRestrictions c) = (λ h, mkEh false (eh_source h)) <$> eh c
  ∧ cursor (cy (applyEditingRestrictions c))
    = (λ _, "not-allowed") <$> cursor (cy c)
  ∧ elements (cy (applyEditingRestrictions c))
    = removeData "cxtmenu" <$>
        ((λ e, if isNode e then set_grabbable false e else e) <$> elements (cy c)).
Proof.
  intros Hl. unfold applyEditingRestrictions. rewrite Hl. cbn [negb].
  destruct c as [g [h|] a v l m w n f fm cs]; cbn in *;
    destruct (cursor g) eqn:Hc; cbn; rewrite ?Hc; split_and!; try reflexivity.
  all: by rewrite <- app_assoc.
Qed.

(** Delivering the state the controller is in already: the flag, the
    graph with its listeners and menus, the edge-draw extension and the
    record of calls stay as they are. *)
Lemma deploymentStateChanged_same c b :
  isEditingLocked c = b →
  isEditingLocked (deploymentStateChanged b c) = b
  ∧ cy (deploymentStateChanged b c) = cy c
  ∧ eh (deploymentStateChanged b c) = eh c
  ∧ calls (deploymentStateChanged b c) = calls c
  ∧ isEdgeHandlerActive (deploymentStateChanged b c) = isEdgeHandlerActive c
  ∧ interfaceCounters (deploymentStateChanged b c) = interfaceCounters c.
Proof.
  intros <-. unfold deploymentStateChanged, checkDeploymentState.
  destruct c as [g h a v [] m [d im] n [] [fm|] cs]; cbn; split_and!; reflexivity.
Qed.

(** After one delivery the controller is in the delivered state, and the
    page shows it. *)
Lemma deploymentStateChanged_settled c b :
  let c' := deploymentStateChanged b c in
  isEditingLocked c' = b
  ∧ isLabDeployed (window c') = Some b
  ∧ (floatingActionPanel c' = true → fabMain c' = None ∨ fabMain c' = Some (bool_toString b)).
Proof.
  cbn zeta. unfold deploymentStateChanged.
  set (c0 := set_window _ c). set (c1 := checkDeploymentState c0).
  assert (H1 : isEditingLocked c1 = b ∧ isLabDeployed (window c1) = Some b).
  { unfold c1, c0, checkDeploymentState. cbn. by destruct b. }
  destruct H1 as [Hl Hw].
  set (c2 := if isEditingLocked c1 && negb (isEditingLocked c0) then _ else _).
  assert (H2 : isEditingLocked c2 = b ∧ window c2 = window c1).
  { unfold c2.
    destruct (isEditingLocked c1 && negb (isEditingLocked c0));
      [|destruct (negb (isEditingLocked c1) && isEditingLocked c0)].
    - destruct (applyEditingRestrictions_frame c1) as (-> & -> & _). done.
    - destruct (removeEditingRestrictions_frame c1) as (-> & -> & _). done.
    - done. }
  destruct H2 as [Hl2 Hw2].
  destruct (floatingActionPanel c2) eqn:Hf; [destruct (fabMain c2) eqn:Hm|].
  - cbn. rewrite Hl2, Hw2, Hw. split_and!; [done..|]. intros _. by right.
  - rewrite Hl2, Hw2, Hw, Hm. split_and!; [done..|]. intros _. by left.
  - rewrite Hl2, Hw2, Hw, Hf. split_and!; done.
Qed.

(** A controller that is in the delivered state altogether is not changed
    by the delivery. *)
Lemma deploymentStateChanged_fixed c b :
  isEditingLocked c = b →
  isLabDeployed (window c) = Some b →
  (floatingActionPanel c = true → fabMain c = None ∨ fabMain c = Some (bool_toString b)) →
  deploymentStateChanged b c = c.
Proof.
  intros <- Hw Hf. unfold deploymentStateChanged, checkDeploymentState.
  destruct c as [g h a v l m [d im] n f fm cs]; cbn in *. subst d.
  destruct l; cbn; destruct f; cbn; try reflexivity.
  all: destruct (Hf eq_refl) as [->| ->]; reflexivity.
Qed.

(** The first delivery of [true] in Unlocked applies the restrictions. *)
Lemma deploymentStateChanged_enter c :
  isEditingLocked c = false →
  listeners (cy (deploymentStateChanged true c)) = listeners (cy c) ++ lock_listeners
  ∧ calls (deploymentStateChanged true c)
    = calls c ++ Ungrabify :: match eh c with Some _ => [EhDisable] | None => [] end.
Proof.
  intros Hu.
  set (c1 := checkDeploymentState
               (set_window (mkWindow (Some true) (ifacePatternMapping (window c))) c)).
  assert (Hfirst : cy (deploymentStateChanged true c) = cy (applyEditingRestrictions c1)
                   ∧ calls (deploymentStateChanged true c)
                     = calls (applyEditingRestrictions c1)).
  { unfold deploymentStateChanged. fold c1.
    assert (isEditingLocked c1 = true) as -> by reflexivity.
    change (isEditingLocked (set_window _ c)) with (isEditingLocked c). rewrite Hu.
    cbn [andb negb].
    destruct (floatingActionPanel _); [destruct (fabMain _)|]; by split. }
  destruct Hfirst as [-> ->].
  destruct (applyEditingRestrictions_locked c1 eq_refl) as (-> & -> & _).
  by split.
Qed.

(** Leaving Locked takes no listener off. *)
Lemma deploymentStateChanged_leave c :
  isEditingLocked c = true →
  listeners (cy (deploymentStateChanged false c)) = listeners (cy c)
  ∧ calls (deploymentStateChanged false c)
    = calls c ++ Grabify :: match eh c with Some _ => [EhEnable] | None => [] end.
Proof.
  intros Hl. unfold deploymentStateChanged.
  set (c1 := checkDeploymentState _).
  assert (isEditingLocked c1 = false) as -> by reflexivity.
  change (isEditingLocked (set_window _ c)) with (isEditingLocked c). rewrite Hl.
  cbn [andb negb].
  assert (Hrm : listeners (cy (removeEditingRestrictions c1)) = listeners (cy c)
                ∧ calls (removeEditingRestrictions c1)
                  = calls c ++ Grabify :: match eh c with
                                          | Some _ => [EhEnable]
                                          | None => []
                                          end).
  { unfold removeEditingRestrictions, c1.
    destruct c as [g [h|] a v l m w n f fm cs]; cbn; destruct (cursor g); cbn;
      split; try reflexivity; by rewrite <- app_assoc. }
  destruct (floatingActionPanel _); [destruct (fabMain _)|]; exact Hrm.
Qed.

Lemma times_app x l1 l2 : times x (l1 ++ l2) = times x l1 + times x l2.
Proof. unfold times. by rewrite filter_app, length_app. Qed.

(** C4. The lock is idempotent.  A [deployment-state-changed] message
    carrying the state the controller is in leaves the flag, the graph
    (elements, listeners, menus, cursor), the edge-draw extension and the
    record of calls as they are; two deliveries of the same state in a row
    leave the controller where one delivery leaves it; a delivery that is
    not the step from Unlocked to Locked registers no listener and disables
    neither dragging nor the edge draw; and from Unlocked, two deliveries
    of [true] disable dragging once and register each interceptor once. *)
Theorem deploymentStateChanged_idempotent (c : Controller) (b : bool) :
  (isEditingLocked c = b →
   isEditingLocked (deploymentStateChanged b c) = b
   ∧ cy (deploymentStateChanged b c) = cy c
   ∧ eh (deploymentStateChanged b c) = eh c
   ∧ calls (deploymentStateChanged b c) = calls c)
  ∧ deploymentStateChanged b (deploymentStateChanged b c) = deploymentStateChanged b c
  ∧ (isEditingLocked c = true ∨ b = false →
     listeners (cy (deploymentStateChanged b c)) = listeners (cy c)
     ∧ times Ungrabify (calls (deploymentStateChanged b c)) = times Ungrabify (calls c)
     ∧ times EhDisable (calls (deploymentStateChanged b c)) = times EhDisable (calls c))
  ∧ (isEditingLocked c = false →
     let twice := deploymentStateChanged true (deploymentStateChanged true c) in
     isEditingLocked twice = true
     ∧ times Ungrabify (calls twice) = S (times Ungrabify (calls c))
     ∧ times EhDisable (calls twice)
       = times EhDisable (calls c) + match eh c with Some _ => 1 | None => 0 end
     ∧ listeners (cy twice) = listeners (cy c) ++ lock_listeners
     ∧ NoDup lock_listeners).
Proof.
  split_and!.
  - intros Hb. destruct (deploymentStateChanged_same c b Hb) as (? & ? & ? & ? & _).
    by split_and!.
  - destruct (deploymentStateChanged_settled c b) as (Hl & Hw & Hf).
    by apply deploymentStateChanged_fixed.
  - intros Hcase.
    destruct (decide (isEditingLocked c = b)) as [Hsame|Hdiff].
    { destruct (deploymentStateChanged_same c b Hsame) as (_ & -> & _ & -> & _). done. }
    assert (isEditingLocked c = true ∧ b = false) as [Hl ->].
    { destruct (isEditingLocked c), b, Hcase; done. }
    destruct (deploymentStateChanged_leave c Hl) as (-> & ->).
    rewrite !times_app.
    split_and!; [done|..]; destruct (eh c);
      match goal with
      | |- _ + ?x = _ => assert (x = 0) as -> by reflexivity
      end; lia.
  - intros Hu. cbn zeta.
    destruct (deploymentStateChanged_settled c true) as (Hl & Hw & Hf).
    rewrite (deploymentStateChanged_fixed _ true Hl Hw Hf).
    destruct (deploymentStateChanged_enter c Hu) as (-> & ->).
    split_and!; [done| | |done|].
    + rewrite times_app. destruct (eh c).
      * assert (times Ungrabify [Ungrabify; EhDisable] = 1) as -> by reflexivity. lia.
      * assert (times Ungrabify [Ungrabify] = 1) as -> by reflexivity. lia.
    + rewrite times_app. destruct (eh c).
      * assert (times EhDisable [Ungrabify; EhDisable] = 1) as -> by reflexivity. lia.
      * assert (times EhDisable [Ungrabify] = 0) as -> by reflexivity. lia.
    + unfold lock_listeners. repeat (apply NoDup_cons; split; [set_solver|]).
      apply NoDup_nil_2.
Qed.

(** From Unlocked, with the edge-draw extension in place. *)
Lemma deploymentStateChanged_idempotent_sample :
  let c := sample_controller sample_graph ∅ in
  deploymentStateChanged true (deploymentStateChanged true c) = deploymentStateChanged true c
  ∧ times Ungrabify (calls (deploymentStateChanged true (deploymentStateChanged true c))) = 1
  ∧ listeners (cy (deploymentStateChanged true (deploymentStateChanged true c)))
    = lock_listeners.
Proof.
  cbn zeta.
  destruct (deploymentStateChanged_idempotent (sample_controller sample_graph ∅) true)
    as (_ & Hidem & _ & Hfresh).
  destruct (Hfresh eq_refl) as (_ & Hu & _ & Hl & _).
  split_and!; [exact Hidem|exact Hu|exact Hl].
Defined.

(** C10. [removeEditingRestrictions] makes the nodes grabbable again,
    enables the edge-draw extension, resets the cursor and makes the edit
    menus anew, and takes no listener off the graph: after Locked and then
    Unlocked, the interceptors registered on entering Locked are still
    registered. *)
Theorem removeEditingRestrictions_keeps_listeners (c : Controller) :
  listeners (cy (removeEditingRestrictions c)) = listeners (cy c)
  ∧ elements (cy (removeEditingRestrictions c))
    = (λ e, if isNode e then set_grabbable true e else e) <$> elements (cy c)
  ∧ eh (removeEditingRestrictions c) = (λ h, mkEh true (eh_source h)) <$> eh c
  ∧ cursor (cy (removeEditingRestrictions c)) = (λ _, "") <$> cursor (cy c)
  ∧ cxtmenus (cy (removeEditingRestrictions c))
    = cxtmenus (cy c) ++ free_text_menu :: edit_menus
  ∧ (isEditingLocked c = true →
     isEditingLocked (deploymentStateChanged false c) = false
     ∧ listeners (cy (deploymentStateChanged false c)) = listeners (cy c))
  ∧ (isEditingLocked c = false →
     let relocked := deploymentStateChanged false (deploymentStateChanged true c) in
     isEditingLocked relocked = false
     ∧ listeners (cy relocked) = listeners (cy c) ++ lock_listeners).
Proof.
  split_and!.
  - unfold removeEditingRestrictions.
    destruct c as [g [h|] a v l m w n f fm cs]; cbn; destruct (cursor g); reflexivity.
  - unfold removeEditingRestrictions.
    destruct c as [g [h|] a v l m w n f fm cs]; cbn; destruct (cursor g); reflexivity.
  - unfold removeEditingRestrictions.
    destruct c as [g [h|] a v l m w n f fm cs]; cbn; destruct (cursor g); reflexivity.
  - unfold removeEditingRestrictions.
    destruct c as [g [h|] a v l m w n f fm cs]; cbn; destruct (cursor g) eqn:Hc; cbn;
      by rewrite ?Hc.
  - unfold removeEditingRestrictions.
    destruct c as [g [h|] a v l m w n f fm cs]; cbn; destruct (cursor g); cbn;
      by rewrite <- app_assoc.
  - intros Hl. split; [|by apply deploymentStateChanged_leave].
    by destruct (deploymentStateChanged_settled c false) as (? & _).
  - intros Hu. cbn zeta.
    destruct (deploymentStateChanged_settled (deploymentStateChanged true c) false)
      as (Hl' & _).
    split; [exact Hl'|].
    destruct (deploymentStateChanged_settled c true) as (Hl & _).
    destruct (deploymentStateChanged_leave _ Hl) as (-> & _).
    by destruct (deploymentStateChanged_enter c Hu) as (-> & _).
Qed.

End LockTheorems.

(** ** The debounced autosave *)

Section AutoSaveTheorems.

Lemma advance_idle t w :
  timers w = [] →
  advance t w
  = mkWorld (controller w) (max (now w) t) (next_timer w) [] (timeout w) (saves w)
      (outstanding w).
Proof. intros H. unfold advance. rewrite H. cbn. by rewrite H. Qed.

Lemma advance_early t w i d :
  timers w = [mkTimer i d] → t < d →
  advance t w
  = mkWorld (controller w) (max (now w) t) (next_timer w) [mkTimer i d] (timeout w)
      (saves w) (outstanding w).
Proof.
  intros H Ht. unfold advance. rewrite H. cbn [length run_timers]. rewrite H.
  cbn [next_due timer_due]. rewrite bool_decide_eq_false_2 by lia. by rewrite H.
Qed.

Lemma advance_late t w i d :
  timers w = [mkTimer i d] → d ≤ t → now w ≤ d →
  advance t w
  = mkWorld (controller w) t (next_timer w) [] (timeout w)
      (saves w ++ (if blocked w then [] else [d]))
      (outstanding w + (if blocked w then 0 else 1)).
Proof.
  intros H Ht Hn. unfold advance. rewrite H. cbn [length run_timers]. rewrite H.
  cbn [next_due timer_due]. rewrite bool_decide_eq_true_2 by lia.
  unfold fire, debounced, blocked. rewrite H. cbn [timer_due timer_id controller].
  assert (filter (λ t0 : Timer, timer_id t0 ≠ i) [mkTimer i d] = []) as ->.
  { rewrite filter_cons_False; [done|]. cbn. by intros ?. }
  destruct (isEdgeHandlerActive (controller w) || isEditingBlocked (controller w));
    cbn; rewrite ?app_nil_r, ?Nat.add_0_r, ?Nat.add_1_r;
    replace (now w `max` d) with d by lia; replace (d `max` t) with t by lia;
    reflexivity.
Qed.

(** A mutation in a world without timer arms the timer. *)
Lemma step_first w t :
  timers w = [] → now w ≤ t →
  let w' := step w (t, Mutation) in
  armed_at w' t ∧ saves w' = saves w ∧ controller w' = controller w
  ∧ outstanding w' = outstanding w.
Proof.
  intros H Hn. cbn zeta. unfold step. cbn [fst snd handle]. rewrite advance_idle by done.
  unfold autoSave. cbn [timeout].
  assert (Hgo : ∀ v,
    let w' := set_timeout_var (Some (next_timer w))
                (setTimeout wait
                   (mkWorld (controller w) (now w `max` t) (next_timer w) [] v
                      (saves w) (outstanding w))) in
    armed_at w' t ∧ saves w' = saves w ∧ controller w' = controller w
    ∧ outstanding w' = outstanding w).
  { intros v. cbn zeta. split_and!; [|reflexivity..].
    exists (next_timer w). unfold set_timeout_var, setTimeout. cbn.
    split_and!; [|done|lia]. do 2 f_equal. lia. }
  destruct (timeout w) as [i|] eqn:Ht; [|apply Hgo].
  unfold clearTimeout. cbn [timers controller now next_timer timeout saves outstanding].
  rewrite filter_nil. apply Hgo.
Qed.

(** A mutation less than a quiet period after the last one re-arms it. *)
Lemma step_rearm w t t' :
  armed_at w t → t ≤ t' < t + wait →
  let w' := step w (t', Mutation) in
  armed_at w' t' ∧ saves w' = saves w ∧ controller w' = controller w
  ∧ outstanding w' = outstanding w.
Proof.
  intros (i & Ht & Hv & Hn) Hq. cbn zeta. unfold step. cbn [fst snd handle].
  rewrite (advance_early t' w i (t + wait)) by (done || lia).
  unfold autoSave. cbn [timeout]. rewrite Hv. unfold clearTimeout.
  cbn [timers controller now next_timer timeout saves outstanding].
  rewrite filter_cons_False by (cbn; by intros ?). rewrite filter_nil.
  split_and!; [|reflexivity..].
  exists (next_timer w). unfold set_timeout_var, setTimeout. cbn.
  split_and!; [|done|lia]. do 2 f_equal. lia.
Qed.

Lemma run_burst w t ts :
  armed_at w t → quiet_burst t ts →
  let w' := run w (mutations ts) in
  armed_at w' (List.last ts t) ∧ saves w' = saves w ∧ controller w' = controller w
  ∧ outstanding w' = outstanding w.
Proof.
  revert w t. induction ts as [|t' ts IH]; intros w t Ha Hq; cbn zeta.
  { by cbn. }
  destruct Hq as [Hq1 Hq2].
  destruct (step_rearm w t t' Ha Hq1) as (Ha' & Hs & Hc & Ho).
  destruct (IH _ _ Ha' Hq2) as (Ha'' & Hs' & Hc' & Ho').
  unfold run, mutations in *. cbn [fmap list_fmap foldl].
  assert (List.last (t' :: ts) t = List.last ts t') as ->.
  { clear. destruct ts as [|x ts]; [done|]. change (List.last (t' :: x :: ts) t)
      with (List.last (x :: ts) t).
    revert x. induction ts as [|y ts IH]; intros x; [done|]. apply (IH y). }
  split_and!; [done|congruence..].
Qed.

(** After the quiet period the timer has fired, once. *)
Lemma flush w t T :
  armed_at w t → t + wait ≤ T →
  let w' := advance T w in
  timers w' = [] ∧ now w' = T ∧ controller w' = controller w
  ∧ saves w' = saves w ++ (if blocked w then [] else [t + wait])
  ∧ outstanding w' = outstanding w + (if blocked w then 0 else 1).
Proof.
  intros (i & Ht & Hv & Hn) HT. cbn zeta.
  rewrite (advance_late T w i (t + wait)) by (done || lia). by cbn.
Qed.

(** C5, on the code: once the lab is deployed, a burst of five mutations
    is followed by no save at all. *)
Lemma autosave_blocked_no_save :
  let w := run (rest (sample_controller sample_graph ∅) 0)
             ((0, DeploymentStateChanged true)
              :: mutations [100; 200; 300; 400; 500]) in
  isEditingLocked (controller w) = true
  ∧ saves (advance 5000 w) = [].
Proof. vm_compute. split; reflexivity. Qed.

Lemma one_timer_advance t w : one_timer w → one_timer (advance t w).
Proof.
  intros [H|(i & d & H & Hv & Hd)].
  - left. by rewrite advance_idle.
  - destruct (decide (d ≤ t)) as [Hle|Hgt].
    + left. rewrite (advance_late t w i d) by (done || lia). done.
    + right. exists i, d. rewrite (advance_early t w i d) by (done || lia).
      cbn. split_and!; [done..|lia].
Qed.

Lemma one_timer_handle ev w : one_timer w → one_timer (handle ev w).
Proof.
  intros Hw. destruct ev; try exact Hw.
  cbn [handle]. right. unfold autoSave.
  exists (next_timer w), (now w + wait).
  destruct Hw as [H|(i & d & H & Hv & Hd)].
  - destruct (timeout w); unfold clearTimeout, setTimeout, set_timeout_var; cbn;
      rewrite H; cbn; (split_and!; [done..|unfold wait; lia]).
  - rewrite Hv. unfold clearTimeout, setTimeout, set_timeout_var. cbn. rewrite H.
    rewrite filter_cons_False by (cbn; by intros ?). rewrite filter_nil.
    cbn. split_and!; [done..|unfold wait; lia].
Qed.

Lemma one_timer_run w trace : one_timer w → one_timer (run w trace).
Proof.
  revert w. induction trace as [|e trace IH]; intros w Hw; [done|].
  apply IH. unfold step. by apply one_timer_handle, one_timer_advance.
Qed.

(** A mutation arms the timer, whatever was armed before. *)
Lemma step_arm w t :
  one_timer w → now w ≤ t →
  let w' := step w (t, Mutation) in
  armed_at w' t ∧ saves w' = saves (advance t w) ∧ controller w' = controller w
  ∧ blocked w' = blocked w.
Proof.
  intros Hw Hn. cbn zeta. unfold step. cbn [fst snd handle].
  assert (Hadv : now (advance t w) = t ∧ controller (advance t w) = controller w
                 ∧ (timers (advance t w) = []
                    ∨ ∃ i d, timers (advance t w) = [mkTimer i d]
                             ∧ timeout (advance t w) = Some i)).
  { destruct Hw as [H|(i & d & H & Hv & Hd)].
    - rewrite advance_idle by done. cbn. split_and!; [lia|done|by left].
    - destruct (decide (d ≤ t)) as [Hle|Hgt].
      + rewrite (advance_late t w i d) by (done || lia). cbn.
        split_and!; [done..|by left].
      + rewrite (advance_early t w i d) by (done || lia). cbn.
        split_and!; [lia|done|]. right. by exists i, d. }
  destruct Hadv as (Hnow & Hc & Ht).
  set (w1 := advance t w) in *. clearbody w1.
  destruct w1 as [c1 n1 k1 l1 v1 s1 o1].
  cbn [now controller timers timeout saves] in *. subst n1 c1.
  unfold blocked, autoSave. cbn [timeout].
  assert (Hcleared : match v1 with
                     | Some i => clearTimeout i (mkWorld (controller w) t k1 l1 v1 s1 o1)
                     | None => mkWorld (controller w) t k1 l1 v1 s1 o1
                     end
                     = mkWorld (controller w) t k1 [] v1 s1 o1).
  { destruct Ht as [->|(i & d & -> & ->)].
    - destruct v1; unfold clearTimeout; cbn; by rewrite ?filter_nil.
    - unfold clearTimeout. cbn [timers controller now next_timer timeout saves outstanding].
      rewrite filter_cons_False by (cbn; by intros ?). by rewrite filter_nil. }
  rewrite Hcleared. unfold set_timeout_var, setTimeout. cbn.
  split_and!; [|done..]. eexists. by split_and!.
Qed.

(** C5, as the code has it.  The debounce is on the trailing edge with a
    quiet period of 500 ms: each mutation re-arms the one timer, so five
    mutations, each less than a quiet period after the one before, lead to
    one run of the debounced function, one quiet period after the fifth,
    and a sixth mutation after that quiet period leads to a second run, one
    quiet period after the sixth.  A run calls the save unless an edge is
    being drawn or editing is locked then.  ([before] is what was saved
    when the first of the mutations arrives.) *)
Theorem autosave_debounce (w : World) (t1 t2 t3 t4 t5 t6 T : nat) :
  one_timer w → now w ≤ t1 →
  quiet_burst t1 [t2; t3; t4; t5] →
  t5 + wait ≤ t6 → t6 + wait ≤ T →
  let before := saves (advance t1 w) in
  let five := run w (mutations [t1; t2; t3; t4; t5]) in
  let six := run w (mutations [t1; t2; t3; t4; t5; t6]) in
  saves five = before
  ∧ (∃ i, timers five = [mkTimer i (t5 + wait)])
  ∧ (∀ T5, t5 + wait ≤ T5 →
     saves (advance T5 five) = before ++ (if blocked w then [] else [t5 + wait]))
  ∧ saves six = before ++ (if blocked w then [] else [t5 + wait])
  ∧ (∃ i, timers six = [mkTimer i (t6 + wait)])
  ∧ saves (advance T six)
    = before ++ (if blocked w then [] else [t5 + wait; t6 + wait]).
Proof.
  intros Hone Hnow Hq H6 HT. cbn zeta.
  destruct (step_arm w t1 Hone Hnow) as (Ha1 & Hs1 & Hc1 & Hb1).
  destruct (run_burst _ t1 [t2; t3; t4; t5] Ha1 Hq) as (Ha5 & Hs5 & Hc5 & Ho5).
  cbn [List.last] in Ha5.
  set (five := run w (mutations [t1; t2; t3; t4; t5])).
  change (run (step w (t1, Mutation)) (mutations [t2; t3; t4; t5])) with five in *.
  assert (Hb5 : blocked five = blocked w).
  { rewrite <- Hb1. unfold blocked. by rewrite Hc5. }
  assert (Hflush : ∀ T5, t5 + wait ≤ T5 →
            saves (advance T5 five)
            = saves (advance t1 w) ++ (if blocked w then [] else [t5 + wait])).
  { intros T5 H5. destruct (flush five t5 T5 Ha5 H5) as (_ & _ & _ & -> & _).
    by rewrite Hb5, Hs5, Hs1. }
  set (at6 := advance t6 five).
  destruct (flush five t5 t6 Ha5 H6) as (Hi6 & Hn6 & Hc6 & Hs6 & _).
  fold at6 in Hi6, Hn6, Hc6, Hs6.
  destruct (step_first at6 t6 Hi6) as (Ha6 & Hs6' & Hc6' & _); [lia|].
  assert (Hsix : run w (mutations [t1; t2; t3; t4; t5; t6]) = step five (t6, Mutation)).
  { unfold five, run, mutations.
    change [t1; t2; t3; t4; t5; t6] with ([t1; t2; t3; t4; t5] ++ [t6]).
    by rewrite fmap_app, foldl_app. }
  rewrite Hsix.
  assert (Hstep : step five (t6, Mutation) = step at6 (t6, Mutation)).
  { unfold step. cbn [fst snd]. f_equal. fold at6.
    rewrite (advance_idle t6 at6 Hi6). rewrite <- Hi6 at 1. rewrite Hn6, Nat.max_id.
    rewrite <- Hn6 at 1. by destruct at6. }
  rewrite Hstep.
  assert (Hb6 : blocked (step at6 (t6, Mutation)) = blocked w).
  { rewrite <- Hb5. unfold blocked. by rewrite Hc6', Hc6. }
  split_and!.
  - by rewrite Hs5, Hs1.
  - destruct Ha5 as (i & Ht & _). by exists i.
  - exact Hflush.
  - rewrite Hs6', Hs6. by rewrite Hb5, Hs5, Hs1.
  - destruct Ha6 as (i & Ht & _). by exists i.
  - destruct (flush _ t6 T Ha6 HT) as (_ & _ & _ & -> & _).
    rewrite Hb6, Hs6', Hs6, Hb5, Hs5, Hs1. rewrite <- app_assoc.
    by destruct (blocked w).
Qed.

(** Five mutations 100 ms apart from time 0 and a sixth at 1000 ms, in edit
    mode with nothing deployed: saves at 900 ms and at 1500 ms. *)
Lemma autosave_debounce_sample :
  saves (advance 1000 (run (rest (sample_controller sample_graph ∅) 0)
                         (mutations [0; 100; 200; 300; 400]))) = [900]
  ∧ saves (advance 2000 (run (rest (sample_controller sample_graph ∅) 0)
                           (mutations [0; 100; 200; 300; 400; 1000]))) = [900; 1500].
Proof.
  assert (Hq : quiet_burst 0 [100; 200; 300; 400]).
  { cbn [quiet_burst]. unfold wait. lia. }
  destruct (autosave_debounce (rest (sample_controller sample_graph ∅) 0)
              0 100 200 300 400 1000 2000 (or_introl eq_refl) (le_n 0) Hq)
    as (_ & _ & H5 & _ & _ & H6); [unfold wait; lia..|].
  split.
  - apply (H5 1000). unfold wait. lia.
  - exact H6.
Defined.

(** C6, on the code: two mutations 600 ms apart and no answer from the
    host in between: the second save starts at 1100 ms while the first, of
    500 ms, is still unanswered. *)
Lemma autosave_two_saves_in_flight :
  let w := run (rest (sample_controller sample_graph ∅) 0)
             [(0, Mutation); (600, Mutation); (1200, PositionWhileGrabbed)] in
  saves w = [500; 1100] ∧ outstanding w = 2.
Proof. vm_compute. split; reflexivity. Qed.

(** C6, as the code has it.  Whatever happens, the debounce has at most
    one timer armed; and when a timer fires and the debounced function is
    not blocked, the save is called then and there, whether or not earlier
    saves are still unanswered: nothing is queued. *)
Theorem autosave_one_timer_no_queue (c : Controller) (t0 : nat)
    (trace : list (nat * Event)) :
  length (timers (run (rest c t0) trace)) ≤ 1
  ∧ ∀ x w, blocked w = false →
      saves (fire x w) = saves w ++ [max (now w) (timer_due x)]
      ∧ outstanding (fire x w) = S (outstanding w).
Proof.
  split.
  - destruct (one_timer_run (rest c t0) trace) as [->|(i & d & -> & _)];
      [by left|cbn; lia..].
  - intros x w Hb. unfold fire, debounced. unfold blocked in Hb.
    cbn [controller]. by rewrite Hb.
Qed.

End AutoSaveTheorems.

(** ** More on the allocator and on [edgeParams] *)

Section AllocatorMore.
Import JsString Regex.


Lemma patternOf_set_interfaceCounters m c nodeId :
  patternOf (set_interfaceCounters m c) nodeId = patternOf c nodeId.
Proof. reflexivity. Qed.




(** X3 ([getNextEndpoint]).  A pattern without the placeholder [{n}] is
    returned as it is, whatever edges the node has: every call for such a
    node gives the same name. *)
Theorem getNextEndpoint_without_placeholder (c : Controller) (nodeId : string) :
  split_first "{n}" (patternOf c nodeId) = None →
  getNextEndpoint c nodeId = Some (patternOf c nodeId).
Proof.
  intros Hs. destruct (getNextEndpoint_least c nodeId) as (k & -> & _).
  unfold instantiate. by rewrite replace_split, Hs.
Qed.

Lemma getNextEndpoint_without_placeholder_sample :
  patternOf fixed_name_controller "r2" = "mgmt0"
  ∧ getNextEndpoint fixed_name_controller "r2" = Some (patternOf fixed_name_controller "r2").
Proof.
  split; [vm_compute; reflexivity|].
  apply (getNextEndpoint_without_placeholder fixed_name_controller "r2").
  vm_compute; reflexivity.
Defined.




End AllocatorMore.

(** ** More on the edge draw: Add Link, and two draws in a row *)

Section EdgeDrawMore.
Import JsString Regex.







End EdgeDrawMore.

(** ** More on removals: the Delete Node and Delete Link commands, the
    click on an edge *)

Section RemovalMore.

Lemma elem_of_nodes g e : e ∈ nodes g ↔ e ∈ elements g ∧ group e = Nodes.
Proof. unfold nodes. rewrite list_elem_of_filter. tauto. Qed.

Lemma elem_of_edges g e : e ∈ edges g ↔ e ∈ elements g ∧ group e = Edges.
Proof. unfold edges. rewrite list_elem_of_filter. tauto. Qed.

Lemma is_removed_false gone x :
  (∀ s, x = Some s → s ∉ gone) → is_removed gone x = false.
Proof.
  intros H. destruct x as [s|]; [|done]. cbn.
  apply bool_decide_eq_false_2. by apply H.
Qed.

Lemma is_removed_true gone s : is_removed gone (Some s) = true ↔ s ∈ gone.
Proof. cbn. apply bool_decide_eq_true. Qed.

Lemma survives_edge gone e :
  group e = Edges → survives gone e = true →
  ∀ s, field "source" e = Some s ∨ field "target" e = Some s → s ∉ gone.
Proof.
  intros Hg Hs s Hst Hin. unfold survives, isNode in Hs.
  rewrite (bool_decide_eq_false_2 (group e = Nodes)) in Hs by (rewrite Hg; discriminate).
  apply andb_true_iff in Hs as [_ Hs]. cbn [orb] in Hs.
  apply andb_true_iff in Hs as [H1 H2].
  destruct Hst as [Heq|Heq]; [rewrite Heq in H1|rewrite Heq in H2];
    apply negb_true_iff in H1, H2;
    [apply (not_true_iff_false _) in H1; apply H1
    |apply (not_true_iff_false _) in H2; apply H2];
    by apply is_removed_true.
Qed.

Lemma survives_node gone e s :
  group e = Nodes → id_of e = Some s → s ∉ gone → survives gone e = true.
Proof.
  intros Hg Hi Hs. unfold survives, isNode. rewrite Hi.
  rewrite (bool_decide_eq_true_2 (group e = Nodes)) by done.
  rewrite is_removed_false; [done|]. by intros ? [= <-].
Qed.

Lemma attached_remove g i : attached g → attached (remove g i).
Proof.
  intros Ha e [He Hg]%elem_of_edges. apply elem_of_remove in He as [He Hs].
  destruct (Ha e) as (s & t & ns & nt & Hsrc & Htgt & Hns & His & Hnt & Hit).
  { by apply elem_of_edges. }
  exists s, t, ns, nt.
  apply elem_of_nodes in Hns as [Hns Hgs]. apply elem_of_nodes in Hnt as [Hnt Hgt].
  split_and!; try done.
  - apply elem_of_nodes. split; [|done]. apply elem_of_remove. split; [done|].
    apply (survives_node _ _ s); [done..|]. apply (survives_edge _ e); auto.
  - apply elem_of_nodes. split; [|done]. apply elem_of_remove. split; [done|].
    apply (survives_node _ _ t); [done..|]. apply (survives_edge _ e); auto.
Qed.

Lemma attached_at_id_remove g x : attached g → attached (at_id x (λ i g, remove g i) g).
Proof. intros Ha. unfold at_id. destruct (id_of x); [by apply attached_remove|done]. Qed.

Lemma attached_orphan g node : attached g → attached (orphan node g).
Proof.
  intros Ha. unfold orphan, at_id. destruct (id_of node) as [i|]; [|done].
  set (f := λ e : Ele, if bool_decide (id_of e = Some i) then removeData "parent" e else e).
  assert (Hgrp : ∀ e, group (f e) = group e).
  { intros e. unfold f. by case_bool_decide. }
  assert (Hfld : ∀ k e, k ≠ "parent" → field k (f e) = field k e).
  { intros k e Hk. unfold f. case_bool_decide; [|done].
    rewrite field_removeData. by rewrite bool_decide_eq_false_2. }
  assert (Hin : ∀ e, e ∈ nodes g → f e ∈ nodes (update_ele i (removeData "parent") g)).
  { intros e [He Hg]%elem_of_nodes. apply elem_of_nodes.
    rewrite elements_update_ele, Hgrp. split; [|done].
    apply list_elem_of_fmap. by exists e. }
  intros e' [He' Hg']%elem_of_edges. rewrite elements_update_ele in He'.
  change (e' ∈ f <$> elements g) in He'.
  apply list_elem_of_fmap in He' as (e & -> & He).
  rewrite Hgrp in Hg'.
  destruct (Ha e) as (s & t & ns & nt & Hsrc & Htgt & Hns & His & Hnt & Hit).
  { by apply elem_of_edges. }
  exists s, t, (f ns), (f nt). unfold id_of.
  rewrite !Hfld by done. split_and!; auto.
Qed.

(** X5 (Delete Node).  The Delete Node command on a node of the graph
    that has a parent removes the node and never leaves that parent
    without children: afterwards the parent is gone as well, or it still has
    a child. *)
Theorem deleteNode_no_childless_parent (g : Cy) (ele p : Ele) (rest : list Ele)
    (i j : string) :
  isNode ele = true → ele ∈ elements g → id_of ele = Some i →
  parent g ele = p :: rest → id_of p = Some j →
  (∀ e, e ∈ elements (deleteNode g ele) → e ∈ elements g ∧ id_of e ≠ Some i)
  ∧ ((∀ e, e ∈ elements (deleteNode g ele) → id_of e ≠ Some j)
     ∨ children (deleteNode g ele) p ≠ []).
Proof.
  intros Hn Hin Hi Hp Hj.
  destruct (deleteNode_parent g ele i p rest Hn Hi Hp) as [H1 H2].
  assert (Hrm : ∀ e, e ∈ elements (remove g i) → e ∈ elements g ∧ id_of e ≠ Some i).
  { intros e He. apply remove_spec in He as [He Hgone]. split; [done|].
    apply Hgone. by exists ele. }
  destruct (children (remove g i) p) as [|x xs] eqn:Hc.
  - rewrite (H1 eq_refl). unfold at_id. rewrite Hj. split.
    + intros e He. apply remove_spec in He as [He _]. by apply Hrm.
    + left. intros e He. apply remove_spec in He as [He Hgone].
      destruct (decide (id_of e = Some j)) as [Heq|]; [|done].
      apply Hgone. by exists e.
  - rewrite (H2 ltac:(done)). split; [done|]. right. by rewrite Hc.
Qed.

Lemma deleteNode_no_childless_parent_sample :
  (∀ e, e ∈ elements (deleteNode (sample_cy sample_groups) n1) →
        e ∈ elements (sample_cy sample_groups) ∧ id_of e ≠ Some "n1")
  ∧ ((∀ e, e ∈ elements (deleteNode (sample_cy sample_groups) n1) → id_of e ≠ Some "grp")
     ∨ children (deleteNode (sample_cy sample_groups) n1) grp ≠ []).
Proof.
  apply (deleteNode_no_childless_parent (sample_cy sample_groups) n1 grp [] "n1" "grp").
  - reflexivity.
  - apply (list_elem_of_lookup_2 _ 1). reflexivity.
  - reflexivity.
  - vm_compute; reflexivity.
  - reflexivity.
Defined.

(** X6 (click router, Delete Node, Delete Link).  In a graph where every
    edge has a source and a target that are nodes of the graph, that is
    still so after a click on a node, after a click on an edge, after the
    Delete Node command and after the Delete Link command: no handler
    leaves an edge without one of its ends. *)
Theorem clicks_keep_edges_attached (c : Controller) (ev : MouseEvent) (x : Ele) :
  attached (cy c) →
  attached (cy (onNodeClick c ev x))
  ∧ attached (cy (onEdgeClick c ev x).1)
  ∧ attached (deleteNode (cy c) x)
  ∧ attached (deleteLink (cy c) x).
Proof.
  intros Ha. split_and!.
  - unfold onNodeClick.
    change (cy (set_nodeClicked true c)) with (cy c).
    destruct (ctrlKey ev && isChild (cy c) x); [by apply attached_orphan|].
    destruct (shiftKey ev && negb (bool_decide (role x = Some "freeText"))); [done|].
    destruct (altKey ev && bool_decide (field "editor" x = Some "true")); [|done].
    by apply attached_at_id_remove.
  - unfold onEdgeClick.
    destruct (altKey ev && isViewportDrawerClabEditorChecked c); [|done].
    by apply attached_at_id_remove.
  - unfold deleteNode. destruct (negb (isNode x)); [done|].
    destruct (parent (cy c) x) as [|p ?]; [by apply attached_at_id_remove|].
    case_bool_decide; [|by apply attached_at_id_remove].
    by do 2 apply attached_at_id_remove.
  - by apply attached_at_id_remove.
Qed.

Lemma sample_groups_attached : attached (sample_cy sample_groups).
Proof.
  intros e [He Hg]%elem_of_edges.
  assert (Hr1 : r1 ∈ nodes (sample_cy sample_groups)).
  { apply elem_of_nodes. split; [|reflexivity]. apply (list_elem_of_lookup_2 _ 3). reflexivity. }
  assert (Hr2 : r2 ∈ nodes (sample_cy sample_groups)).
  { apply elem_of_nodes. split; [|reflexivity]. apply (list_elem_of_lookup_2 _ 4). reflexivity. }
  assert (Hn1 : n1 ∈ nodes (sample_cy sample_groups)).
  { apply elem_of_nodes. split; [|reflexivity]. apply (list_elem_of_lookup_2 _ 1). reflexivity. }
  change (e ∈ sample_groups) in He. unfold sample_groups in He.
  repeat (apply elem_of_cons in He as [->|He]); try discriminate Hg.
  - exists "r1", "r2", r1, r2. split_and!; (reflexivity || assumption).
  - exists "n1", "r1", n1, r1. split_and!; (reflexivity || assumption).
  - by apply elem_of_nil in He.
Qed.

Lemma clicks_keep_edges_attached_sample :
  attached (cy (onNodeClick (sample_controller sample_groups ∅) (mkMouse false false true) r1))
  ∧ attached (deleteNode (sample_cy sample_groups) n1).
Proof.
  destruct (clicks_keep_edges_attached (sample_controller sample_groups ∅)
              (mkMouse false false true) r1 sample_groups_attached) as (H & _).
  destruct (clicks_keep_edges_attached (sample_controller sample_groups ∅)
              (mkMouse false false true) n1 sample_groups_attached) as (_ & _ & H' & _).
  split; [exact H|exact H'].
Defined.

Lemma has_ancestor_unreferenced fuel g i e :
  (∀ x, x ∈ elements g → field "parent" x ≠ Some i) →
  e ∈ elements g → has_ancestor fuel g i e = false.
Proof.
  intros Hu. revert e. induction fuel as [|fuel IH]; intros e He; [done|].
  cbn [has_ancestor]. destruct (field "parent" e) as [p|] eqn:Hp; [|done].
  rewrite bool_decide_eq_false_2.
  2:{ intros ->. by apply (Hu e). }
  cbn [orb]. destruct (existsb _ _) eqn:Hex; [|done].
  apply existsb_exists in Hex as (m & Hm & Hm').
  apply list_elem_of_In in Hm. unfold parent in Hm. rewrite Hp in Hm.
  apply list_elem_of_filter in Hm as [_ Hm]. apply elem_of_nodes in Hm as [Hm _].
  by rewrite IH in Hm'.
Qed.

Lemma removed_ids_unreferenced g i j :
  unreferenced g i → j ∈ removed_ids g i → j = i.
Proof.
  intros Hu (e & He & Hr & Hj)%elem_of_removed_ids.
  unfold removed_with in Hr.
  rewrite (has_ancestor_unreferenced _ g i e) in Hr; [|intros x Hx; apply (Hu x Hx)|done].
  rewrite andb_false_r, orb_false_r in Hr. apply bool_decide_eq_true in Hr.
  congruence.
Qed.

Lemma survives_unreferenced g i e :
  unreferenced g i → e ∈ elements g →
  survives (removed_ids g i) e = true ↔ id_of e ≠ Some i.
Proof.
  intros Hu He. split.
  - intros Hs Heq. unfold survives in Hs. apply andb_true_iff in Hs as [Hs _].
    apply negb_true_iff in Hs. rewrite Heq in Hs.
    apply (not_true_iff_false _) in Hs. apply Hs. apply is_removed_true.
    apply elem_of_removed_ids. exists e. split_and!; [done| |done].
    unfold removed_with. by rewrite bool_decide_eq_true_2.
  - intros Hne. destruct (Hu e He) as (_ & Hsrc & Htgt). unfold survives.
    rewrite !is_removed_false; [by rewrite orb_true_r| | |].
    + intros s Hs Hin. apply (removed_ids_unreferenced g i s Hu) in Hin. congruence.
    + intros s Hs Hin. apply (removed_ids_unreferenced g i s Hu) in Hin. congruence.
    + intros s Hs Hin. apply (removed_ids_unreferenced g i s Hu) in Hin. congruence.
Qed.

Lemma filter_iff_in {A} (P Q : A → Prop) `{!∀ x, Decision (P x), !∀ x, Decision (Q x)}
    (l : list A) :
  (∀ x, x ∈ l → P x ↔ Q x) → filter P l = filter Q l.
Proof.
  induction l as [|a l IH]; intros Hpq; [done|].
  assert (filter P l = filter Q l) as IH'.
  { apply IH. intros x Hx. apply Hpq. by right. }
  assert (P a ↔ Q a) as Ha by (apply Hpq; by left).
  destruct (decide (P a)) as [Hp|Hp].
  - rewrite !filter_cons_True by tauto. by rewrite IH'.
  - rewrite !filter_cons_False by tauto. done.
Qed.

Lemma remove_unreferenced g i :
  unreferenced g i →
  elements (remove g i) = filter (λ e, id_of e ≠ Some i) (elements g).
Proof.
  intros Hu. unfold remove. cbn [elements set_elements].
  apply filter_iff_in. intros e He. by apply survives_unreferenced.
Qed.

(** X7 (click on an edge, Delete Link).  For an edge of id [i] (an id
    that no element names as parent, source or target), an Alt+click in
    edit mode with the editor flag set removes the elements under that id
    and nothing else, whether or not the edge was drawn in the editor; so
    does the Delete Link command; any other click on the edge leaves the
    controller as it was. *)
Theorem onEdgeClick_removes_edge_only (c : Controller) (ev : MouseEvent)
    (edge : Ele) (i : string) :
  id_of edge = Some i → unreferenced (cy c) i →
  (onEdgeClick c ev edge).2 = true
  ∧ (altKey ev && isViewportDrawerClabEditorChecked c = false →
     (onEdgeClick c ev edge).1 = c)
  ∧ (altKey ev && isViewportDrawerClabEditorChecked c = true →
     elements (cy (onEdgeClick c ev edge).1)
     = filter (λ e, id_of e ≠ Some i) (elements (cy c))
     ∧ nodes (cy (onEdgeClick c ev edge).1)
       = filter (λ e, id_of e ≠ Some i) (nodes (cy c)))
  ∧ elements (deleteLink (cy c) edge) = filter (λ e, id_of e ≠ Some i) (elements (cy c)).
Proof.
  intros Hi Hu. unfold onEdgeClick, deleteLink, at_id. rewrite Hi.
  destruct (altKey ev && isViewportDrawerClabEditorChecked c); cbn [fst snd].
  - split_and!; [reflexivity|intros [=]| |by apply remove_unreferenced].
    intros _. rewrite cy_set_cy. split; [by apply remove_unreferenced|].
    unfold nodes. rewrite remove_unreferenced by done.
    rewrite !list_filter_filter. apply list_filter_iff. tauto.
  - split_and!; [reflexivity|reflexivity|intros [=]|by apply remove_unreferenced].
Qed.

Lemma sample_groups_unreferenced : unreferenced (sample_cy sample_groups) "r1-r2".
Proof.
  intros e He. change (e ∈ sample_groups) in He. unfold sample_groups in He.
  repeat (apply elem_of_cons in He as [->|He]);
    [split_and!; vm_compute; congruence..|by apply elem_of_nil in He].
Qed.

Lemma onEdgeClick_removes_edge_only_sample :
  let c := sample_controller sample_groups ∅ in
  let edge := sample_edge "r1-r2" "r1" "r2" "eth1" "eth1" in
  elements (cy (onEdgeClick c (mkMouse false false true) edge).1)
  = filter (λ e, id_of e ≠ Some "r1-r2") (elements (cy c)).
Proof.
  intros c edge.
  destruct (onEdgeClick_removes_edge_only c (mkMouse false false true) edge "r1-r2"
              eq_refl sample_groups_unreferenced) as (_ & _ & H & _).
  apply H. reflexivity.
Defined.

End RemovalMore.

(** ** More on [updateTopology]: the ids of the store, a patch delivered
    twice *)

Section PatchMore.

(** The element a patch for an existing id makes of an element. *)
Lemma patched_id_of (d : Data) (cls : list string) (e : Ele) :
  id_of (mkEle (group e) (data_merge d (data e)) cls (grabbable e)) = id_of e.
Proof. apply (id_of_data_merge d e). Qed.

Lemma truthy_Some x : truthy x = true ↔ ∃ i, x = Some i ∧ i ≠ "".
Proof.
  destruct x as [s|]; cbn.
  - rewrite negb_true_iff, bool_decide_eq_false. split; [by exists s|].
    by intros (i & [= <-] & H).
  - split; [done|]. by intros (? & ? & _).
Qed.

Lemma id_of_new_element p i : patch_id (Some p) = Some i → id_of (new_element p) = Some i.
Proof.
  intros (p' & d & [= <-] & Hd & Hi)%patch_id_Some.
  unfold new_element, id_of, field. cbn [data]. by rewrite Hd.
Qed.

(** One patch leaves the list of ids as it is or puts one new id at its
    end. *)
Lemma applyPatch_ids g el :
  id_of <$> elements (applyPatch g el) = id_of <$> elements g
  ∨ ∃ i, i ≠ "" ∧ patch_id el = Some i
         ∧ (Some i ∉ id_of <$> elements g)
         ∧ id_of <$> elements (applyPatch g el) = (id_of <$> elements g) ++ [Some i].
Proof.
  destruct (truthy (patch_id el)) eqn:Ht.
  2:{ left. by rewrite applyPatch_skip. }
  apply truthy_Some in Ht as (i & Hi & Hne).
  destruct el as [p|]; [|done].
  destruct (decide (Some i ∈ id_of <$> elements g)) as [Hin|Hout].
  - left. apply list_elem_of_fmap in Hin as (e & He & Hin).
    rewrite (applyPatch_existing g p i Hi Hne) by (by exists e).
    rewrite <- list_fmap_compose. apply list_fmap_ext. intros k x _.
    unfold compose. case_bool_decide; [|done]. apply patched_id_of.
  - right. exists i. split_and!; [done..|].
    rewrite (applyPatch_new g p i Hi Hne).
    + unfold cy_add. cbn [elements set_elements].
      rewrite fmap_app. f_equal. cbn [fmap list_fmap].
      by rewrite (id_of_new_element p i Hi).
    + intros e He Heq. apply Hout. apply list_elem_of_fmap. by exists e.
Qed.

Lemma updateTopology_ids g (l : list (option PatchEl)) :
  ∃ added,
    id_of <$> elements (foldl applyPatch g l) = (id_of <$> elements g) ++ added
    ∧ (NoDup (id_of <$> elements g) → NoDup (id_of <$> elements (foldl applyPatch g l)))
    ∧ ∀ x, x ∈ added → ∃ i el, x = Some i ∧ i ≠ "" ∧ el ∈ l ∧ patch_id el = Some i.
Proof.
  revert g. induction l as [|el l IH]; intros g.
  { exists []. split_and!; [by rewrite app_nil_r|done|]. by intros x Hx%elem_of_nil. }
  cbn [foldl]. destruct (IH (applyPatch g el)) as (added & Hids & Hnd & Hadded).
  destruct (applyPatch_ids g el) as [Heq|(i & Hne & Hi & Hout & Heq)].
  - exists added. split_and!; [by rewrite Hids, Heq| |].
    + intros H. apply Hnd. by rewrite Heq.
    + intros x Hx. destruct (Hadded x Hx) as (j & el' & ? & ? & ? & ?).
      exists j, el'. split_and!; [done..| |done]. by right.
  - exists (Some i :: added). split_and!; [by rewrite Hids, Heq, <- app_assoc| |].
    + intros H. apply Hnd. rewrite Heq. apply NoDup_app. split_and!; [done| |].
      * intros x Hx ->%list_elem_of_singleton. done.
      * apply NoDup_singleton.
    + intros x [->|Hx]%elem_of_cons.
      * exists i, el. split_and!; [done..|by left|done].
      * destruct (Hadded x Hx) as (j & el' & ? & ? & ? & ?).
        exists j, el'. split_and!; [done..| |done]. by right.
Qed.

(** X8 ([updateTopology]).  A message never removes or reorders the
    elements of the store: the list of ids after it is the list before it
    followed by the ids it added, each of them the non-empty id of one of
    its patches; and where no two elements shared an id before the message,
    none do after it. *)
Theorem updateTopology_keeps_ids (g : Cy) (msg_data : option (list (option PatchEl))) :
  ∃ added,
    id_of <$> elements (updateTopology g msg_data) = (id_of <$> elements g) ++ added
    ∧ (NoDup (id_of <$> elements g) →
       NoDup (id_of <$> elements (updateTopology g msg_data)))
    ∧ ∀ x, x ∈ added →
        ∃ i el l, x = Some i ∧ i ≠ "" ∧ msg_data = Some l ∧ el ∈ l ∧ patch_id el = Some i.
Proof.
  destruct msg_data as [l|]; cbn [updateTopology].
  - destruct (updateTopology_ids g l) as (added & H1 & H2 & H3).
    exists added. split_and!; [done..|].
    intros x Hx. destruct (H3 x Hx) as (i & el & ? & ? & ? & ?). by exists i, el, l.
  - exists []. split_and!; [by rewrite app_nil_r|done|]. by intros x Hx%elem_of_nil.
Qed.

Lemma applyPatch_frame g el : applyPatch g el = set_elements (elements (applyPatch g el)) g.
Proof.
  unfold applyPatch. destruct (negb (truthy (patch_id el))); [by destruct g|].
  destruct el as [p|]; [|by destruct g].
  destruct (nonempty _); [|reflexivity].
  destruct (p_classes p) as [[s|l]|]; reflexivity.
Qed.

Lemma set_elements_self g : set_elements (elements g) g = g.
Proof. by destruct g. Qed.

Lemma data_merge_twice d old : data_merge d (data_merge d old) = data_merge d old.
Proof.
  unfold data_merge. cbn [fields extraData]. f_equal.
  - by rewrite (assoc_L (∪)), (idemp_L (∪)).
  - by destruct (extraData d).
Qed.

Lemma data_merge_self d : data_merge d d = d.
Proof.
  destruct d as [f x]. unfold data_merge. cbn [fields extraData]. f_equal.
  - apply map_subseteq_union, map_filter_subseteq.
  - by destruct x.
Qed.

(** X9 ([updateTopology]).  A patch delivered twice in a row has the
    effect of the patch delivered once: the second delivery finds the
    element, merges the same data and sets the same classes, and changes
    nothing. *)
Theorem applyPatch_twice (g : Cy) (el : option PatchEl) :
  applyPatch (applyPatch g el) el = applyPatch g el.
Proof.
  destruct (truthy (patch_id el)) eqn:Ht.
  2:{ by rewrite !applyPatch_skip. }
  apply truthy_Some in Ht as (i & Hi & Hne).
  destruct el as [p|]; [|done].
  etransitivity; [apply applyPatch_frame|].
  enough (elements (applyPatch (applyPatch g (Some p)) (Some p))
          = elements (applyPatch g (Some p))) as -> by apply set_elements_self.
  set (d := default (mkData ∅ None) (p_data p)).
  set (f := λ e : Ele,
         if bool_decide (id_of e = Some i)
         then mkEle (group e) (data_merge d (data e))
                (match p_classes p with
                 | Some (ClassString s) => String.words s
                 | _ => classes e
                 end)
                (grabbable e)
         else e).
  assert (Hff : ∀ e, f (f e) = f e).
  { intros e. unfold f at 2. case_bool_decide as He.
    - unfold f. rewrite patched_id_of, bool_decide_eq_true_2 by done.
      cbn [group data classes grabbable]. rewrite data_merge_twice.
      by destruct (p_classes p) as [[?|?]|].
    - unfold f. by rewrite bool_decide_eq_false_2. }
  destruct (decide (Some i ∈ id_of <$> elements g)) as [Hin|Hout].
  - apply list_elem_of_fmap in Hin as (e & He & Hin).
    assert (elements (applyPatch g (Some p)) = f <$> elements g) as Hg1.
    { apply (applyPatch_existing g p i Hi Hne). by exists e. }
    rewrite (applyPatch_existing _ p i Hi Hne).
    + fold d. fold f. rewrite Hg1, <- list_fmap_compose.
      apply list_fmap_ext. intros k x _. apply Hff.
    + exists (f e). rewrite Hg1. split; [apply list_elem_of_fmap; by exists e|].
      unfold f. rewrite bool_decide_eq_true_2 by done. by rewrite patched_id_of.
  - assert (Hnone : ∀ e, e ∈ elements g → id_of e ≠ Some i).
    { intros e He Heq. apply Hout. apply list_elem_of_fmap. by exists e. }
    assert (elements (applyPatch g (Some p)) = elements g ++ [new_element p]) as Hg1.
    { by rewrite (applyPatch_new g p i Hi Hne Hnone). }
    rewrite (applyPatch_existing _ p i Hi Hne).
    + fold d. fold f. rewrite Hg1, fmap_app. f_equal.
      * rewrite <- (list_fmap_id (elements g)) at 2. apply list_fmap_ext.
        intros k x Hx. unfold f. rewrite bool_decide_eq_false_2; [done|].
        apply Hnone. by apply list_elem_of_lookup_2 in Hx.
      * cbn [fmap list_fmap]. f_equal. unfold f.
        rewrite (id_of_new_element p i Hi), bool_decide_eq_true_2 by done.
        unfold new_element. cbn [group data classes grabbable]. fold d.
        rewrite data_merge_self. by destruct (p_classes p) as [[?|?]|].
    + exists (new_element p). rewrite Hg1. split; [|by apply id_of_new_element].
      apply elem_of_app. right. by left.
Qed.

End PatchMore.

(** ** More on the lock: the menus it destroys, lock and unlock repeated *)

Section LockMore.

Lemma list_difference_nil {A} `{EqDecision A} (l : list A) : list_difference l [] = l.
Proof.
  induction l as [|x l IH]; [done|]. cbn.
  destruct (decide_rel elem_of x []) as [H|_]; [by apply elem_of_nil in H|by rewrite IH].
Qed.



(** The restrictions, on the menus. *)
Lemma applyEditingRestrictions_menus c :
  isEditingLocked c = true →
  cxtmenus (cy (applyEditingRestrictions c))
  = list_difference (cxtmenus (cy c)) (default [] (private_cxtmenu (cy c)))
  ∧ private_cxtmenu (cy (applyEditingRestrictions c)) = None.
Proof.
  intros Hl. unfold applyEditingRestrictions. rewrite Hl. cbn [negb].
  destruct c as [g [h|] a v l m w n f fm cs]; cbn in *;
    destruct (cursor g) eqn:Hc; cbn; rewrite ?Hc; split; reflexivity.
Qed.

(** Entering Locked, on the menus. *)
Lemma deploymentStateChanged_enter_menus c :
  isEditingLocked c = false →
  cxtmenus (cy (deploymentStateChanged true c))
  = list_difference (cxtmenus (cy c)) (default [] (private_cxtmenu (cy c)))
  ∧ private_cxtmenu (cy (deploymentStateChanged true c)) = None
  ∧ (eh (deploymentStateChanged true c) = None ↔ eh c = None).
Proof.
  intros Hu.
  set (c1 := checkDeploymentState
               (set_window (mkWindow (Some true) (ifacePatternMapping (window c))) c)).
  assert (Hfirst : cy (deploymentStateChanged true c) = cy (applyEditingRestrictions c1)
                   ∧ eh (deploymentStateChanged true c)
                     = eh (applyEditingRestrictions c1)).
  { unfold deploymentStateChanged. fold c1.
    assert (isEditingLocked c1 = true) as -> by reflexivity.
    change (isEditingLocked (set_window _ c)) with (isEditingLocked c). rewrite Hu.
    cbn [andb negb].
    destruct (floatingActionPanel _); [destruct (fabMain _)|]; by split. }
  destruct Hfirst as [-> ->].
  destruct (applyEditingRestrictions_menus c1 eq_refl) as (-> & ->).
  destruct (applyEditingRestrictions_locked c1 eq_refl) as (_ & _ & -> & _).
  split_and!; [reflexivity..|].
  change (eh c1) with (eh c). by destruct (eh c).
Qed.

(** Lifting the restrictions, on the menus. *)
Lemma removeEditingRestrictions_menus c :
  cxtmenus (cy (removeEditingRestrictions c))
  = cxtmenus (cy c) ++ free_text_menu :: edit_menus
  ∧ private_cxtmenu (cy (removeEditingRestrictions c)) = private_cxtmenu (cy c).
Proof.
  unfold removeEditingRestrictions.
  destruct c as [g [h|] a v l m w n f fm cs]; cbn; destruct (cursor g); cbn;
    rewrite <- ?app_assoc; split; reflexivity.
Qed.

(** Leaving Locked, on the menus. *)
Lemma deploymentStateChanged_leave_menus c :
  isEditingLocked c = true →
  cxtmenus (cy (deploymentStateChanged false c))
  = cxtmenus (cy c) ++ free_text_menu :: edit_menus
  ∧ private_cxtmenu (cy (deploymentStateChanged false c)) = private_cxtmenu (cy c).
Proof.
  intros Hl. unfold deploymentStateChanged.
  set (c1 := checkDeploymentState _).
  assert (isEditingLocked c1 = false) as -> by reflexivity.
  change (isEditingLocked (set_window _ c)) with (isEditingLocked c). rewrite Hl.
  cbn [andb negb].
  assert (Hrm : cxtmenus (cy (removeEditingRestrictions c1))
                = cxtmenus (cy c) ++ free_text_menu :: edit_menus
                ∧ private_cxtmenu (cy (removeEditingRestrictions c1))
                  = private_cxtmenu (cy c)).
  { apply (removeEditingRestrictions_menus c1). }
  destruct (floatingActionPanel _); [destruct (fabMain _)|]; exact Hrm.
Qed.

(** One lock and unlock, on the store. *)
Lemma lock_cycle_cy c :
  isEditingLocked c = false →
  isEditingLocked (lock_cycle c) = false
  ∧ listeners (cy (lock_cycle c)) = listeners (cy c) ++ lock_listeners
  ∧ cxtmenus (cy (lock_cycle c))
    = list_difference (cxtmenus (cy c)) (default [] (private_cxtmenu (cy c)))
      ++ free_text_menu :: edit_menus
  ∧ private_cxtmenu (cy (lock_cycle c)) = None
  ∧ calls (lock_cycle c)
    = calls c ++ match eh c with
                 | Some _ => [Ungrabify; EhDisable; Grabify; EhEnable]
                 | None => [Ungrabify; Grabify]
                 end.
Proof.
  intros Hu. unfold lock_cycle.
  set (c1 := deploymentStateChanged true c).
  assert (Hl : isEditingLocked c1 = true).
  { by destruct (deploymentStateChanged_settled c true) as (H & _). }
  destruct (deploymentStateChanged_enter c Hu) as (E1 & E2).
  destruct (deploymentStateChanged_enter_menus c Hu) as (E3 & E4 & E5).
  destruct (deploymentStateChanged_leave c1 Hl) as (L1 & L2).
  destruct (deploymentStateChanged_leave_menus c1 Hl) as (L3 & L4).
  fold c1 in E1, E2, E3, E4, E5.
  split_and!.
  - by destruct (deploymentStateChanged_settled c1 false) as (H & _).
  - by rewrite L1, E1.
  - by rewrite L3, E3.
  - by rewrite L4, E4.
  - rewrite L2, E2, <- app_assoc. f_equal.
    destruct (eh c) as [h|] eqn:Hh.
    + destruct (eh c1) as [h1|] eqn:Hh1; [reflexivity|].
      destruct E5 as [E5 _]. by specialize (E5 eq_refl).
    + destruct E5 as [_ E5]. by rewrite (E5 eq_refl).
Qed.

Lemma concat_replicate_snoc {A} n (l : list A) :
  concat (replicate n l) ++ l = concat (replicate (S n) l).
Proof.
  induction n as [|n IH]; cbn [replicate concat]; [by rewrite app_nil_r|].
  rewrite <- app_assoc, IH. reflexivity.
Qed.

(** X11 (lock and unlock).  Nothing of what a lock adds is taken back by
    the unlock that follows: after the lab has been deployed and destroyed
    [n + 1] times, the store holds [n + 1] copies of the four interceptors
    behind the listeners it had, and [n + 1] copies of the four edit-mode
    menus behind the menus that survived the first lock. *)
Theorem lock_cycles_accumulate (c : Controller) (n : nat) :
  isEditingLocked c = false →
  let c' := Nat.iter (S n) lock_cycle c in
  isEditingLocked c' = false
  ∧ listeners (cy c') = listeners (cy c) ++ concat (replicate (S n) lock_listeners)
  ∧ length (listeners (cy c')) = length (listeners (cy c)) + 4 * S n
  ∧ cxtmenus (cy c')
    = list_difference (cxtmenus (cy c)) (default [] (private_cxtmenu (cy c)))
      ++ concat (replicate (S n) (free_text_menu :: edit_menus))
  ∧ times Ungrabify (calls c') = times Ungrabify (calls c) + S n
  ∧ times Grabify (calls c') = times Grabify (calls c) + S n.
Proof.
  intros Hu. cbn zeta.
  enough (isEditingLocked (Nat.iter (S n) lock_cycle c) = false
          ∧ listeners (cy (Nat.iter (S n) lock_cycle c))
            = listeners (cy c) ++ concat (replicate (S n) lock_listeners)
          ∧ cxtmenus (cy (Nat.iter (S n) lock_cycle c))
            = list_difference (cxtmenus (cy c)) (default [] (private_cxtmenu (cy c)))
              ++ concat (replicate (S n) (free_text_menu :: edit_menus))
          ∧ private_cxtmenu (cy (Nat.iter (S n) lock_cycle c)) = None
          ∧ times Ungrabify (calls (Nat.iter (S n) lock_cycle c))
            = times Ungrabify (calls c) + S n
          ∧ times Grabify (calls (Nat.iter (S n) lock_cycle c))
            = times Grabify (calls c) + S n) as (H1 & H2 & H3 & _ & H5 & H6).
  { split_and!; try done. rewrite H2, length_app.
    f_equal. clear. induction n as [|n IH]; [reflexivity|].
    change (replicate (S (S n)) lock_listeners)
      with (lock_listeners :: replicate (S n) lock_listeners).
    cbn [concat]. rewrite length_app, IH. cbn [lock_listeners length]. lia. }
  induction n as [|n IH].
  - rewrite Nat.iter_succ. cbn [Nat.iter nat_rect].
    destruct (lock_cycle_cy c Hu) as (H1 & H2 & H3 & H4 & H5).
    split_and!; [done|rewrite H2; reflexivity|rewrite H3; reflexivity|done|..].
    + rewrite H5, times_app. f_equal. by destruct (eh c).
    + rewrite H5, times_app. f_equal. by destruct (eh c).
  - destruct IH as (I1 & I2 & I3 & I4 & I5 & I6).
    rewrite (Nat.iter_succ (S n)).
    set (cn := Nat.iter (S n) lock_cycle c) in *. clearbody cn.
    destruct (lock_cycle_cy cn I1) as (H1 & H2 & H3 & H4 & H5).
    split_and!; [done| | |done|..].
    + rewrite H2, I2, <- app_assoc. f_equal. apply concat_replicate_snoc.
    + rewrite H3, I4. cbn [default]. rewrite list_difference_nil, I3, <- app_assoc.
      f_equal. apply (concat_replicate_snoc (S n)).
    + rewrite H5, times_app, I5.
      assert (times Ungrabify
                match eh cn with
                | Some _ => [Ungrabify; EhDisable; Grabify; EhEnable]
                | None => [Ungrabify; Grabify]
                end = 1) as -> by (by destruct (eh cn)).
      lia.
    + rewrite H5, times_app, I6.
      assert (times Grabify
                match eh cn with
                | Some _ => [Ungrabify; EhDisable; Grabify; EhEnable]
                | None => [Ungrabify; Grabify]
                end = 1) as -> by (by destruct (eh cn)).
      lia.
Qed.

Lemma lock_cycles_accumulate_sample :
  length (listeners (cy (Nat.iter 3 lock_cycle (sample_controller sample_graph ∅)))) = 12
  ∧ length (cxtmenus (cy (Nat.iter 3 lock_cycle (sample_controller sample_graph ∅)))) = 12.
Proof.
  destruct (lock_cycles_accumulate (sample_controller sample_graph ∅) 2 eq_refl)
    as (_ & _ & H3 & H4 & _).
  split; [exact H3|]. rewrite H4. reflexivity.
Defined.

End LockMore.

(** ** More on the autosave: what is never saved, how often it saves *)

Section AutoSaveMore.





Lemma spaced_nil : spaced [].
Proof. intros [|? ?] a b l2 H; discriminate H. Qed.

Lemma spaced_snoc l d :
  spaced l → (∀ s, s ∈ l → s + wait ≤ d) → spaced (l ++ [d]).
Proof.
  intros Hl Hd l1 a b l2 Heq.
  destruct l2 as [|x l2 _] using rev_ind.
  - change (l1 ++ [a; b]) with (l1 ++ [a] ++ [b]) in Heq.
    rewrite app_assoc in Heq. apply app_inj_tail in Heq as [-> ->].
    apply Hd. apply elem_of_app. right. by left.
  - change (l1 ++ a :: b :: l2 ++ [x]) with (l1 ++ (a :: b :: l2) ++ [x]) in Heq.
    rewrite app_assoc in Heq. apply app_inj_tail in Heq as [-> _].
    by apply (Hl l1 a b l2).
Qed.

Lemma paced_advance t w : paced w → paced (advance t w).
Proof.
  intros (Hsp & Hpast & [H|(i & d & H & Hv & Hd & Hdue)]).
  - rewrite advance_idle by done. split_and!; cbn; [done| |by left].
    intros s Hs. specialize (Hpast s Hs). lia.
  - destruct (decide (d ≤ t)) as [Hle|Hgt].
    + rewrite (advance_late t w i d) by (done || lia).
      split_and!; cbn [saves now timers]; [| |by left].
      * destruct (blocked w); [by rewrite app_nil_r|]. by apply spaced_snoc.
      * intros s Hs. apply elem_of_app in Hs as [Hs|Hs].
        -- specialize (Hpast s Hs). lia.
        -- destruct (blocked w); [by apply elem_of_nil in Hs|].
           apply list_elem_of_singleton in Hs as ->. done.
    + rewrite (advance_early t w i d) by (done || lia).
      split_and!; cbn [saves now timers timeout]; [done| |].
      * intros s Hs. specialize (Hpast s Hs). lia.
      * right. exists i, d. split_and!; [done..|lia|done].
Qed.

Lemma paced_handle ev w : paced w → paced (handle ev w).
Proof.
  intros Hw. destruct ev; try exact Hw.
  destruct Hw as (Hsp & Hpast & Ht).
  cbn [handle]. unfold autoSave.
  assert (Hgo : ∀ w1, saves w1 = saves w → now w1 = now w → timers w1 = [] →
                paced (set_timeout_var (Some (next_timer w1)) (setTimeout wait w1))).
  { intros w1 Hs Hn Hti. unfold set_timeout_var, setTimeout.
    split_and!; cbn [saves now timers timeout]; rewrite ?Hs, ?Hn; [done..|].
    right. exists (next_timer w1), (now w + wait). rewrite Hti.
    split_and!; [done..|unfold wait; lia|].
    intros s Hin. specialize (Hpast s Hin). lia. }
  destruct Ht as [H|(i & d & H & Hv & _)].
  - destruct (timeout w) as [j|]; apply Hgo; try done.
    unfold clearTimeout. cbn [timers]. by rewrite H.
  - rewrite Hv. apply Hgo; try done.
    unfold clearTimeout. cbn [timers]. rewrite H.
    rewrite filter_cons_False by (cbn; by intros ?). by rewrite filter_nil.
Qed.

Lemma paced_run w trace : paced w → paced (run w trace).
Proof.
  revert w. induction trace as [|e trace IH]; intros w Hw; [done|].
  apply IH. unfold step. by apply paced_handle, paced_advance.
Qed.

(** X13 ([setupAutoSave], [debounce]).  However the events arrive, two
    consecutive saves started by the autosave are at least one quiet period
    (500 ms) apart, and none is started at a time still to come. *)
Theorem autosave_saves_spaced (c : Controller) (t0 : nat) (trace : list (nat * Event)) :
  spaced (saves (run (rest c t0) trace))
  ∧ ∀ s, s ∈ saves (run (rest c t0) trace) → s ≤ now (run (rest c t0) trace).
Proof.
  assert (paced (rest c t0)) as Hr.
  { split_and!; [apply spaced_nil|by intros s Hs%elem_of_nil|by left]. }
  destruct (paced_run _ trace Hr) as (H1 & H2 & _). by split.
Qed.

(** X14 ([setupAutoSave], [debounce]).  A burst of mutations of any
    length, each less than a quiet period after the one before, is followed
    by one run of the debounced function, one quiet period after the last
    of them: one save when nothing blocks it then, none otherwise. *)
Theorem autosave_any_burst (w : World) (t T : nat) (ts : list nat) :
  one_timer w → now w ≤ t → quiet_burst t ts → List.last ts t + wait ≤ T →
  let burst := run w (mutations (t :: ts)) in
  saves burst = saves (advance t w)
  ∧ saves (advance T burst)
    = saves (advance t w) ++ (if blocked w then [] else [List.last ts t + wait])
  ∧ timers (advance T burst) = [].
Proof.
  intros Hw Hn Hq HT. cbn zeta.
  destruct (step_arm w t Hw Hn) as (Ha & Hs & Hc & Hb).
  destruct (run_burst _ t ts Ha Hq) as (Ha' & Hs' & Hc' & _).
  change (run w (mutations (t :: ts)))
    with (run (step w (t, Mutation)) (mutations ts)).
  set (burst := run (step w (t, Mutation)) (mutations ts)) in *. clearbody burst.
  destruct (flush burst _ T Ha' HT) as (Ht & _ & _ & Hsv & _).
  assert (blocked burst = blocked w) as Hbb.
  { unfold blocked in *. by rewrite Hc', Hc. }
  rewrite Hbb in Hsv. rewrite Hsv, Hs', Hs. by split_and!.
Qed.

Lemma autosave_any_burst_sample :
  saves (advance 5000
           (run (rest (sample_controller sample_graph ∅) 0)
              (mutations [0; 400; 800; 1200; 1600; 2000; 2400])))
  = [2900].
Proof.
  destruct (autosave_any_burst (rest (sample_controller sample_graph ∅) 0) 0 5000
              [400; 800; 1200; 1600; 2000; 2400]) as (_ & H & _).
  - by left.
  - apply Nat.le_refl.
  - vm_compute. repeat split; lia.
  - vm_compute. lia.
  - exact H.
Defined.

End AutoSaveMore.

(** ** The overview drawer *)

Section DrawerTheorems.

Lemma viewportButtonsTopologyOverview_found doc k d :
  getElementById_html doc "viewport-drawer-topology-overview" = Some (k, d) →
  viewportButtonsTopologyOverview doc
  = if bool_decide (style_display d = "block")
    then alter (set_display "none") k doc
    else alter (set_display "block") k (hide_drawer <$> doc).
Proof. intros H. unfold viewportButtonsTopologyOverview. by rewrite H. Qed.

Lemma getElementById_html_alter f doc i k d :
  (∀ e, html_id (f e) = html_id e) →
  getElementById_html doc i = Some (k, d) →
  getElementById_html (alter f k doc) i = Some (k, f d).
Proof.
  intros Hf (Hk & Hi & Hfirst)%list_find_Some. apply list_find_Some. split_and!.
  - by rewrite list_lookup_alter_eq, Hk.
  - by rewrite Hf.
  - intros j y Hj Hlt. rewrite list_lookup_alter_ne in Hj by lia. by apply (Hfirst j).
Qed.

Lemma getElementById_html_fmap f doc i k d :
  (∀ e, html_id (f e) = html_id e) →
  getElementById_html doc i = Some (k, d) →
  getElementById_html (f <$> doc) i = Some (k, f d).
Proof.
  intros Hf (Hk & Hi & Hfirst)%list_find_Some. apply list_find_Some. split_and!.
  - by rewrite list_lookup_fmap, Hk.
  - by rewrite Hf.
  - intros j y Hj Hlt. rewrite list_lookup_fmap in Hj.
    destruct (doc !! j) as [x|] eqn:Hx; [|done]. injection Hj as <-.
    rewrite Hf. by apply (Hfirst j).
Qed.

Lemma html_id_hide_drawer e : html_id (hide_drawer e) = html_id e.
Proof. unfold hide_drawer. by case_bool_decide. Qed.

Lemma classList_hide_drawer e : classList (hide_drawer e) = classList e.
Proof. unfold hide_drawer. by case_bool_decide. Qed.

(** One press of the button on a page that has the drawer. *)
Lemma viewportButtonsTopologyOverview_step doc k d :
  getElementById_html doc "viewport-drawer-topology-overview" = Some (k, d) →
  ∃ d',
    getElementById_html (viewportButtonsTopologyOverview doc)
      "viewport-drawer-topology-overview" = Some (k, d')
    ∧ (style_display d' = "block" ↔ style_display d ≠ "block")
    ∧ (style_display d' = "block" →
       ∀ j e, viewportButtonsTopologyOverview doc !! j = Some e → j ≠ k →
              "viewport-drawer" ∈ classList e → style_display e = "none").
Proof.
  intros Hd. rewrite (viewportButtonsTopologyOverview_found doc k d Hd).
  case_bool_decide as Hb.
  - exists (set_display "none" d). split_and!.
    + by apply getElementById_html_alter.
    + cbn. rewrite Hb. split; [discriminate|done].
    + discriminate.
  - exists (set_display "block" (hide_drawer d)). split_and!.
    + apply getElementById_html_alter; [done|].
      apply getElementById_html_fmap; [apply html_id_hide_drawer|done].
    + by cbn.
    + intros _ j e Hj Hjk Hcls. rewrite list_lookup_alter_ne in Hj by done.
      rewrite list_lookup_fmap in Hj.
      destruct (doc !! j) as [x|]; [|done]. injection Hj as <-.
      rewrite classList_hide_drawer in Hcls. unfold hide_drawer.
      by rewrite bool_decide_eq_true_2.
Qed.

(** X15 ([viewportButtonsTopologyOverview]).  Without the overview drawer
    the page is left as it is.  With it, the button changes the [display]
    of elements only, never their number, ids or classes; it hides the
    drawer when it is shown and shows it otherwise; whenever the drawer is
    shown after the press, every other element of class [viewport-drawer]
    is hidden; and a second press leaves the drawer shown exactly when it
    was shown before the first. *)
Theorem viewportButtonsTopologyOverview_toggle (doc : list HtmlElement) :
  (getElementById_html doc "viewport-drawer-topology-overview" = None →
   viewportButtonsTopologyOverview doc = doc)
  ∧ html_id <$> viewportButtonsTopologyOverview doc = html_id <$> doc
  ∧ classList <$> viewportButtonsTopologyOverview doc = classList <$> doc
  ∧ ∀ k drawer,
      getElementById_html doc "viewport-drawer-topology-overview" = Some (k, drawer) →
      ∃ drawer' drawer'',
        getElementById_html (viewportButtonsTopologyOverview doc)
          "viewport-drawer-topology-overview" = Some (k, drawer')
        ∧ (style_display drawer' = "block" ↔ style_display drawer ≠ "block")
        ∧ (style_display drawer' = "block" →
           ∀ j e, viewportButtonsTopologyOverview doc !! j = Some e → j ≠ k →
                  "viewport-drawer" ∈ classList e → style_display e = "none")
        ∧ getElementById_html
            (viewportButtonsTopologyOverview (viewportButtonsTopologyOverview doc))
            "viewport-drawer-topology-overview" = Some (k, drawer'')
        ∧ (style_display drawer'' = "block" ↔ style_display drawer = "block").
Proof.
  assert (Hkeep : ∀ {B} (f : HtmlElement → B),
            (∀ v e, f (set_display v e) = f e) →
            f <$> viewportButtonsTopologyOverview doc = f <$> doc).
  { intros B f Hf. unfold viewportButtonsTopologyOverview.
    destruct (getElementById_html doc _) as [[k d]|]; [|done].
    case_bool_decide.
    - rewrite (list_fmap_alter f _ id) by (apply Forall_forall; intros; apply Hf).
      by apply list_alter_id.
    - rewrite (list_fmap_alter f _ id) by (apply Forall_forall; intros; apply Hf).
      rewrite list_alter_id by done. rewrite <- list_fmap_compose.
      apply list_fmap_ext. intros j e _. unfold compose.
      case_bool_decide; [apply Hf|done]. }
  split_and!.
  - intros H. unfold viewportButtonsTopologyOverview. by rewrite H.
  - by apply Hkeep.
  - by apply Hkeep.
  - intros k d Hd.
    destruct (viewportButtonsTopologyOverview_step doc k d Hd) as (d' & H1 & H2 & H3).
    destruct (viewportButtonsTopologyOverview_step _ k d' H1) as (d'' & H4 & H5 & _).
    exists d', d''. split_and!; [done..|].
    rewrite H5, H2. destruct (decide (style_display d = "block")); tauto.
Qed.

End DrawerTheorems.

(** * Properties of the session maps *)

Section SessionTheorems.
Import JsString Sessions.

Lemma starts_with_append p s : starts_with p (p +:+ s) = true.
Proof. induction p as [|a p IH]; [done|]. cbn. by rewrite bool_decide_eq_true_2. Qed.

Lemma slice_append p s : slice (String.length p) (p +:+ s) = s.
Proof. induction p as [|a p IH]; [done|]. cbn. exact IH. Qed.

Lemma length_append (a b : string) :
  String.length (a +:+ b) = String.length a + String.length b.
Proof. induction a as [|c a IH]; [done|]. cbn. by rewrite IH. Qed.

Lemma substring_append a b : String.substring 0 (String.length a) (a +:+ b) = a.
Proof. induction a as [|c a IH]; [by destruct b|]. cbn. by rewrite IH. Qed.

Lemma strip_prefix_append p s : strip_prefix p (p +:+ s) = s.
Proof. unfold strip_prefix. by rewrite starts_with_append, slice_append. Qed.

Lemma ends_with_append a sfx : ends_with sfx (a +:+ sfx) = true.
Proof.
  unfold ends_with. rewrite length_append.
  rewrite bool_decide_eq_true_2 by lia.
  replace (String.length a + String.length sfx - String.length sfx)
    with (String.length a) by lia.
  rewrite slice_append. by rewrite bool_decide_eq_true_2.
Qed.

Lemma slice_to_clab lab sfx :
  slice_to 5 (String.length sfx) ("clab-" +:+ lab +:+ sfx) = lab.
Proof.
  unfold slice_to. rewrite !length_append.
  change (String.length "clab-") with 5.
  replace (5 `min` (5 + (String.length lab + String.length sfx))) with 5 by lia.
  replace (5 + (String.length lab + String.length sfx) - String.length sfx - 5)
    with (String.length lab) by lia.
  change (String.substring 0 (String.length lab) (lab +:+ sfx) = lab).
  apply substring_append.
Qed.

Lemma truthy_nonempty lab : lab ≠ "" → truthy (Some lab) = true.
Proof. intros H. cbn. by rewrite bool_decide_eq_false_2. Qed.

(** The three naming conventions, for a tool [tool_prefix], [tool_suffix]
    whose prefix does not start a name that starts with [clab-]. *)
Lemma lab_of_conventions tool_prefix tool_suffix lab l nw nm p :
  lab ≠ "" →
  (∀ s, starts_with tool_prefix ("clab-" +:+ s) = false) →
  names_no_lab nw →
  lab_of tool_prefix tool_suffix (String.length tool_suffix)
    (mkSession l (Some ("clab-" +:+ lab)) nm p) = Some lab
  ∧ lab_of tool_prefix tool_suffix (String.length tool_suffix)
      (mkSession l nw (Some (tool_prefix +:+ lab)) p) = Some lab
  ∧ lab_of tool_prefix tool_suffix (String.length tool_suffix)
      (mkSession l nw (Some ("clab-" +:+ lab +:+ tool_suffix)) p) = Some lab.
Proof.
  intros Hlab Hpre Hnw.
  assert (Hfall : ∀ nm', lab_of tool_prefix tool_suffix (String.length tool_suffix)
                           (mkSession l nw (Some nm') p)
                         = if starts_with tool_prefix nm'
                           then Some (strip_prefix tool_prefix nm')
                           else if starts_with "clab-" nm' && ends_with tool_suffix nm'
                                then Some (slice_to 5 (String.length tool_suffix) nm')
                                else match nw with
                                     | Some n => if starts_with "clab-" n
                                                 then Some (strip_prefix "clab-" n)
                                                 else None
                                     | None => None
                                     end).
  { intros nm'. unfold lab_of. cbn [network name].
    destruct nw as [n|]; [|reflexivity].
    destruct Hnw as [Hn| ->]; [by rewrite Hn|reflexivity]. }
  split_and!.
  - unfold lab_of. cbn [network name].
    rewrite (starts_with_append "clab-" lab), (strip_prefix_append "clab-" lab).
    by rewrite (truthy_nonempty lab Hlab).
  - by rewrite Hfall, starts_with_append, strip_prefix_append.
  - rewrite Hfall, (Hpre (lab +:+ tool_suffix)).
    rewrite (starts_with_append "clab-" (lab +:+ tool_suffix)).
    change ("clab-" +:+ lab +:+ tool_suffix) with (("clab-" +:+ lab) +:+ tool_suffix) at 1.
    rewrite (ends_with_append ("clab-" +:+ lab) tool_suffix). cbn [andb].
    by rewrite slice_to_clab.
Qed.

(** X16 ([refreshSshxSessions], [refreshGottySessions]).  The lab of a
    session is read back from each of the three ways a session is named:
    for a non-empty lab name, the network [clab-<lab>] gives the lab
    whatever the session's name is, and where the network gives none, the
    names [sshx-<lab>] and [clab-<lab>-sshx] (for GoTTY [gotty-<lab>] and
    [clab-<lab>-gotty]) give it. *)
Theorem session_lab_read_back (lab : string) (l nw nm : option string) (p : option N) :
  lab ≠ "" → names_no_lab nw →
  (lab_of "sshx-" "-sshx" 5 (mkSession l (Some ("clab-" +:+ lab)) nm p) = Some lab
   ∧ lab_of "sshx-" "-sshx" 5 (mkSession l nw (Some ("sshx-" +:+ lab)) p) = Some lab
   ∧ lab_of "sshx-" "-sshx" 5 (mkSession l nw (Some ("clab-" +:+ lab +:+ "-sshx")) p)
     = Some lab)
  ∧ (lab_of "gotty-" "-gotty" 6 (mkSession l (Some ("clab-" +:+ lab)) nm p) = Some lab
     ∧ lab_of "gotty-" "-gotty" 6 (mkSession l nw (Some ("gotty-" +:+ lab)) p) = Some lab
     ∧ lab_of "gotty-" "-gotty" 6 (mkSession l nw (Some ("clab-" +:+ lab +:+ "-gotty")) p)
       = Some lab).
Proof.
  intros Hlab Hnw. split.
  - apply (lab_of_conventions "sshx-" "-sshx" lab l nw nm p Hlab); [|done].
    intros s. reflexivity.
  - apply (lab_of_conventions "gotty-" "-gotty" lab l nw nm p Hlab); [|done].
    intros s. reflexivity.
Qed.

Lemma session_lab_read_back_sample :
  lab_of "sshx-" "-sshx" 5
    (mkSession (Some "https://sshx.io/s/abc") None (Some "clab-lab1-sshx") None)
  = Some "lab1"
  ∧ lab_of "gotty-" "-gotty" 6
      (mkSession None (Some "clab-") (Some "clab-lab1-gotty") (Some 8080%N))
    = Some "lab1".
Proof.
  destruct (session_lab_read_back "lab1" (Some "https://sshx.io/s/abc") None None None)
    as ((_ & _ & H) & _); [done|exact I|].
  destruct (session_lab_read_back "lab1" None (Some "clab-") None (Some 8080%N))
    as (_ & (_ & _ & H')); [done|by right|].
  split; [exact H|exact H'].
Defined.


Lemma forEach_session_app {A} (f : A → Session → A) acc before rest :
  Forall is_Some before →
  forEach_session f acc (before ++ rest)
  = forEach_session f (forEach_session f acc before) rest.
Proof.
  intros H. revert acc. induction H as [|[s|] before Hs _ IH]; intros acc; [done| |].
  - cbn. apply IH.
  - by destruct Hs.
Qed.

Lemma forEach_session_keeps {f : gmap string string → Session → gmap string string}
    k v after :
  (∀ s m, Some s ∈ after → m !! k = Some v → f m s !! k = Some v) →
  ∀ m, m !! k = Some v → forEach_session f m after !! k = Some v.
Proof.
  induction after as [|[s|] after IH]; intros Hf m Hm; cbn; [done| |done].
  apply IH.
  - intros s' m' Hs'. apply Hf. by right.
  - apply Hf; [by left|done].
Qed.

Lemma truthy_default x : truthy x = true → x = Some (default "" x) ∧ default "" x ≠ "".
Proof.
  destruct x as [s|]; cbn; [|done]. rewrite negb_true_iff, bool_decide_eq_false. done.
Qed.


Lemma sshx_put_stores m s lab url :
  link s = Some url → url ≠ "" → url ≠ "N/A" →
  lab_of "sshx-" "-sshx" 5 s = Some lab → lab ≠ "" →
  sshx_put m s = <[lab := url]> m.
Proof.
  intros Hl Hu Hna Hlab Hne. unfold sshx_put. rewrite Hl, Hlab.
  rewrite !truthy_nonempty by done. cbn [negb orb].
  rewrite bool_decide_eq_false_2; [done|]. by intros [= ->].
Qed.


(** X18 ([refreshSshxSessions]).  A session with a usable link and a lab
    is stored under its lab, provided no [null] entry comes before it in
    the list and no later session with a usable link belongs to the same
    lab: of several sessions of one lab the last one wins, and a [null]
    entry cuts the list short. *)
Theorem refreshSshxSessions_stores (before after : list (option Session))
    (s : Session) (lab url : string) (old : gmap string string) :
  Forall is_Some before →
  link s = Some url → url ≠ "" → url ≠ "N/A" →
  lab_of "sshx-" "-sshx" 5 s = Some lab → lab ≠ "" →
  (∀ s', Some s' ∈ after → lab_of "sshx-" "-sshx" 5 s' ≠ Some lab) →
  refreshSshxSessions (Parsed (before ++ Some s :: after)) old !! lab = Some url
  ∧ refreshSshxSessions (Parsed (before ++ [None; Some s])) old !! lab
    = refreshSshxSessions (Parsed before) old !! lab.
Proof.
  intros Hb Hl Hu Hna Hlab Hne Hafter. cbn [refreshSshxSessions]. split.
  - rewrite forEach_session_app by done. cbn [forEach_session].
    apply forEach_session_keeps.
    + intros s' m Hs' Hm. unfold sshx_put.
      destruct (negb (truthy (link s')) || bool_decide (link s' = Some "N/A")); [done|].
      destruct (truthy (lab_of "sshx-" "-sshx" 5 s')) eqn:Ht; [|done].
      apply truthy_default in Ht as [Ht _].
      rewrite lookup_insert_ne; [done|]. intros Heq. apply (Hafter s' Hs').
      by rewrite Ht, Heq.
    + rewrite (sshx_put_stores _ s lab url) by done. apply lookup_insert_eq.
  - by rewrite forEach_session_app.
Qed.

Lemma refreshSshxSessions_stores_sample :
  let s1 := mkSession (Some "https://sshx.io/s/old") (Some "clab-lab1") None None in
  let s2 := mkSession (Some "https://sshx.io/s/new") None (Some "sshx-lab1") None in
  let s3 := mkSession (Some "N/A") None (Some "clab-lab2-sshx") None in
  refreshSshxSessions (Parsed [Some s1; Some s2; Some s3]) ∅ !! "lab1"
  = Some "https://sshx.io/s/new".
Proof.
  intros s1 s2 s3.
  destruct (refreshSshxSessions_stores [Some s1] [Some s3] s2 "lab1"
              "https://sshx.io/s/new" ∅) as [H _].
  - repeat constructor. by eexists.
  - reflexivity.
  - discriminate.
  - discriminate.
  - reflexivity.
  - discriminate.
  - intros s' Hs'. apply list_elem_of_singleton in Hs'. injection Hs' as ->.
    vm_compute. discriminate.
  - exact H.
Defined.



End SessionTheorems.
